(** * Neon Speed Launch: the game loop of [src/pages/Game.tsx]

    A shallow embedding of the per-frame update of the rocket game
    (key handlers, [gameLoop], [checkCollision], [handleRestart] and the
    high-score read at mount), followed by the properties of the game core.

    Conventions of the embedding.
    - A JavaScript [number] that holds a coordinate is a rational [Q], the
      exact value of the double.  The rocket's coordinates and every [x] are
      integers far below 2^53, on which the arithmetic of doubles is exact.
      The [y] of an obstacle is the product of a [Math.random()] draw and an
      integer, taken exactly; the sums [checkCollision] forms from it are
      rounded as the code rounds them ([round64]).  Counters ([frameCount],
      [score], ...) only ever hold integers and are [Z]; [%] is [Z.rem].
    - [Math.random()] is an oracle: each frame receives the draws it may
      consume ([Draws]); a draw lies in the interval [0, 1).
    - The mutable ref [gameStateRef.current] is the record [GameState]; the
      React state of the component, the ref and [localStorage] together are
      [World].  The closures of the effect read the current React state, as
      the effect is re-installed whenever [gameOver] or [highScore] changes.
    - Drawing ([drawFrame]) and the toasts only read the state and are left
      out. *)

From Stdlib Require Import ZArith QArith Qminmax Qround Qabs Qpower Lqa Lia.
From Stdlib Require Import List String Ascii.
From Stdlib Require Import Decimal Hexadecimal DecimalString DecimalZ.
From stdpp Require Import gmap strings list.

Open Scope Q_scope.

(** ** Data model *)

(** [type GameMode = "4G" | "5G"] *)
Inductive GameMode := G4 | G5.

Definition modeLabel (m : GameMode) : string :=
  match m with G4 => "4G" | G5 => "5G" end.

(** [interface GameObject] *)
Record GameObject := mkObject {
  x : Q;
  y : Q;
  width : Q;
  height : Q;
  speed : Q
}.

Inductive ObstacleType := meteor | satellite.

(** [interface Obstacle extends GameObject] *)
Record Obstacle := mkObstacle {
  body :> GameObject;
  type : ObstacleType
}.

(** The object held by [gameStateRef]. *)
Record GameState := mkState {
  rocket : GameObject;
  obstacles : list Obstacle;
  keys : gmap string bool;
  score : Z;
  frameCount : Z;
  lastObstacleFrame : Z;
  lagFrames : Z;
  shouldFreeze : bool;
  freezeCounter : Z
}.

(** A number that came out of [parseInt]: an integer or [NaN]. *)
Inductive JsInt := NaN | Int (n : Z).

(** The component: its React state ([score], [gameOver], [highScore]; the
    first is called [scoreState] here since [score] names the field of the
    ref), the ref, and the browser's [localStorage]. *)
Record World := mkWorld {
  gameMode : GameMode;
  scoreState : Z;
  gameOver : bool;
  highScore : JsInt;
  state : GameState;
  localStorage : gmap string string
}.

(** ** Field updates *)

Definition setX (v : Q) (o : GameObject) : GameObject :=
  mkObject v (y o) (width o) (height o) (speed o).

Definition setY (v : Q) (o : GameObject) : GameObject :=
  mkObject (x o) v (width o) (height o) (speed o).

Definition setRocket (r : GameObject) (st : GameState) : GameState :=
  mkState r (obstacles st) (keys st) (score st) (frameCount st)
    (lastObstacleFrame st) (lagFrames st) (shouldFreeze st) (freezeCounter st).

Definition setObstacles (os : list Obstacle) (st : GameState) : GameState :=
  mkState (rocket st) os (keys st) (score st) (frameCount st)
    (lastObstacleFrame st) (lagFrames st) (shouldFreeze st) (freezeCounter st).

Definition setKeys (ks : gmap string bool) (st : GameState) : GameState :=
  mkState (rocket st) (obstacles st) ks (score st) (frameCount st)
    (lastObstacleFrame st) (lagFrames st) (shouldFreeze st) (freezeCounter st).

Definition setScore (n : Z) (st : GameState) : GameState :=
  mkState (rocket st) (obstacles st) (keys st) n (frameCount st)
    (lastObstacleFrame st) (lagFrames st) (shouldFreeze st) (freezeCounter st).

Definition setFrameCount (n : Z) (st : GameState) : GameState :=
  mkState (rocket st) (obstacles st) (keys st) (score st) n
    (lastObstacleFrame st) (lagFrames st) (shouldFreeze st) (freezeCounter st).

Definition setLastObstacleFrame (n : Z) (st : GameState) : GameState :=
  mkState (rocket st) (obstacles st) (keys st) (score st) (frameCount st)
    n (lagFrames st) (shouldFreeze st) (freezeCounter st).

Definition setShouldFreeze (b : bool) (st : GameState) : GameState :=
  mkState (rocket st) (obstacles st) (keys st) (score st) (frameCount st)
    (lastObstacleFrame st) (lagFrames st) b (freezeCounter st).

Definition setFreezeCounter (n : Z) (st : GameState) : GameState :=
  mkState (rocket st) (obstacles st) (keys st) (score st) (frameCount st)
    (lastObstacleFrame st) (lagFrames st) (shouldFreeze st) n.

Definition setState (st : GameState) (w : World) : World :=
  mkWorld (gameMode w) (scoreState w) (gameOver w) (highScore w) st
    (localStorage w).

Definition setScoreState (n : Z) (w : World) : World :=
  mkWorld (gameMode w) n (gameOver w) (highScore w) (state w)
    (localStorage w).

Definition setGameOver (b : bool) (w : World) : World :=
  mkWorld (gameMode w) (scoreState w) b (highScore w) (state w)
    (localStorage w).

Definition setHighScore (h : JsInt) (w : World) : World :=
  mkWorld (gameMode w) (scoreState w) (gameOver w) h (state w)
    (localStorage w).

Definition setItem (k v : string) (w : World) : World :=
  mkWorld (gameMode w) (scoreState w) (gameOver w) (highScore w) (state w)
    (<[k := v]> (localStorage w)).

(** ** Numbers and strings of the host *)

(** [a < b] on numbers. *)
Definition Qltb (a b : Q) : bool := negb (Qle_bool b a).

(** The rounding that ends every arithmetic operation on numbers: to the
    nearest binary64 value, ties to the even mantissa.  [binade q] is
    floor (log2 |q|); the unit in the last place is 2^(binade - 52), and
    2^-1074 for subnormal values.  Beyond the largest double the code has
    [Infinity]; the value kept here is larger than every double, as
    [Infinity] is. *)
Definition pow2 (u : Z) : Q :=
  if (0 <=? u)%Z then inject_Z (2 ^ u) else / inject_Z (2 ^ (- u)).

Definition binade (q : Q) : Z :=
  if Qle_bool 1 (Qabs q) then Z.log2 (Qfloor (Qabs q))
  else (- Z.log2_up (Qceiling (/ Qabs q)))%Z.

Definition roundHalfEven (q : Q) : Z :=
  let f := Qfloor q in
  let r := q - inject_Z f in
  if Qltb r (1 # 2) then f
  else if Qltb (1 # 2) r then (f + 1)%Z
  else if Z.even f then f else (f + 1)%Z.

Definition round64 (q : Q) : Q :=
  if Qeq_bool q 0 then 0
  else
    let u := Z.max (binade q - 52) (-1074) in
    inject_Z (roundHalfEven (q / pow2 u)) * pow2 u.

(** A number that rounding leaves as it is, as every binary64 value is. *)
Definition isDouble (q : Q) : Prop := round64 q == q.

(** The [Math.random()] results offered to one frame: the freeze coin, the
    obstacle-type coin and the vertical position. *)
Record Draws := mkDraws {
  rFreeze : Q;
  rType : Q;
  rY : Q
}.

(** What [Math.random()] returns: a double, at least 0 and below 1. *)
Definition unitDraw (r : Q) : Prop := 0 <= r /\ r < 1 /\ isDouble r.

Definition validDraws (d : Draws) : Prop :=
  unitDraw (rFreeze d) /\ unitDraw (rType d) /\ unitDraw (rY d).

(** [canvas.width] and [canvas.height], set when the effect starts. *)
Definition canvasWidth : Q := 800.
Definition canvasHeight : Q := 600.

(** [String.prototype.toLowerCase] on the letters A to Z.  A letter outside
    ASCII is kept as it is, where the code lower-cases it too: the two
    agree on whether a key name lower-cases to one of the eight names the
    loop reads, which are ASCII and are the image of no other letter. *)
Definition lowerChar (c : ascii) : ascii :=
  let n := nat_of_ascii c in
  if ((65 <=? n) && (n <=? 90))%nat then ascii_of_nat (n + 32) else c.

Fixpoint toLowerCase (s : string) : string :=
  match s with
  | EmptyString => EmptyString
  | String c t => String (lowerChar c) (toLowerCase t)
  end.

(** [Number.prototype.toString] of an integer: its decimal numeral. *)
Definition toString (n : Z) : string := NilZero.string_of_int (Z.to_int n).

(** White space skipped by [parseInt].  A string is the UTF-8 form of the
    JavaScript string.  One byte: TAB, LF, VT, FF, CR and the space. *)
Definition isWhiteSpace (c : ascii) : bool :=
  let n := nat_of_ascii c in
  (((9 <=? n) && (n <=? 13)) || (n =? 32))%nat.

(** The first byte of the white space of two or three bytes. *)
Definition isWhiteLead (c : ascii) : bool :=
  let n := nat_of_ascii c in
  ((n =? 194) || (n =? 225) || (n =? 226) || (n =? 227) || (n =? 239))%nat.

(** Two bytes: U+00A0. *)
Definition isWhiteSpace2 (c0 c1 : ascii) : bool :=
  ((nat_of_ascii c0 =? 194) && (nat_of_ascii c1 =? 160))%nat.

(** Three bytes: U+1680, U+2000 to U+200A, U+2028, U+2029, U+202F, U+205F,
    U+3000 and U+FEFF. *)
Definition isWhiteSpace3 (c0 c1 c2 : ascii) : bool :=
  let n0 := nat_of_ascii c0 in
  let n1 := nat_of_ascii c1 in
  let n2 := nat_of_ascii c2 in
  (((n0 =? 225) && (n1 =? 154) && (n2 =? 128))
   || ((n0 =? 226) && (n1 =? 128)
       && (((128 <=? n2) && (n2 <=? 138)) || (n2 =? 168) || (n2 =? 169)
           || (n2 =? 175)))
   || ((n0 =? 226) && (n1 =? 129) && (n2 =? 159))
   || ((n0 =? 227) && (n1 =? 128) && (n2 =? 128))
   || ((n0 =? 239) && (n1 =? 187) && (n2 =? 191)))%nat.

Fixpoint trimStart (s : string) : string :=
  match s with
  | EmptyString => EmptyString
  | String c0 t0 =>
      if isWhiteSpace c0 then trimStart t0
      else if isWhiteLead c0 then
        match t0 with
        | EmptyString => s
        | String c1 t1 =>
            if isWhiteSpace2 c0 c1 then trimStart t1
            else
              match t1 with
              | EmptyString => s
              | String c2 t2 =>
                  if isWhiteSpace3 c0 c1 c2 then trimStart t2 else s
              end
        end
      else s
  end.

Definition decDigit (c : ascii) : option (Decimal.uint -> Decimal.uint) :=
  match c with
  | "0" => Some Decimal.D0 | "1" => Some Decimal.D1 | "2" => Some Decimal.D2
  | "3" => Some Decimal.D3 | "4" => Some Decimal.D4 | "5" => Some Decimal.D5
  | "6" => Some Decimal.D6 | "7" => Some Decimal.D7 | "8" => Some Decimal.D8
  | "9" => Some Decimal.D9
  | _ => None
  end%char.

Definition hexDigit (c : ascii)
  : option (Hexadecimal.uint -> Hexadecimal.uint) :=
  match c with
  | "0" => Some Hexadecimal.D0 | "1" => Some Hexadecimal.D1
  | "2" => Some Hexadecimal.D2 | "3" => Some Hexadecimal.D3
  | "4" => Some Hexadecimal.D4 | "5" => Some Hexadecimal.D5
  | "6" => Some Hexadecimal.D6 | "7" => Some Hexadecimal.D7
  | "8" => Some Hexadecimal.D8 | "9" => Some Hexadecimal.D9
  | "a" | "A" => Some Hexadecimal.Da | "b" | "B" => Some Hexadecimal.Db
  | "c" | "C" => Some Hexadecimal.Dc | "d" | "D" => Some Hexadecimal.Dd
  | "e" | "E" => Some Hexadecimal.De | "f" | "F" => Some Hexadecimal.Df
  | _ => None
  end%char.

(** The longest prefix of [s] made of digits, as a numeral. *)
Fixpoint decPrefix (s : string) : Decimal.uint :=
  match s with
  | EmptyString => Decimal.Nil
  | String c t =>
      match decDigit c with
      | Some dk => dk (decPrefix t)
      | None => Decimal.Nil
      end
  end.

Fixpoint hexPrefix (s : string) : Hexadecimal.uint :=
  match s with
  | EmptyString => Hexadecimal.Nil
  | String c t =>
      match hexDigit c with
      | Some dk => dk (hexPrefix t)
      | None => Hexadecimal.Nil
      end
  end.

Definition parseDec (s : string) : JsInt :=
  match decPrefix s with
  | Decimal.Nil => NaN
  | d => Int (Z.of_uint d)
  end.

Definition parseHex (s : string) : JsInt :=
  match hexPrefix s with
  | Hexadecimal.Nil => NaN
  | d => Int (Z.of_hex_uint d)
  end.

Definition negate (v : JsInt) : JsInt :=
  match v with NaN => NaN | Int n => Int (- n) end.

(** [parseInt(s)] without a radix: leading white space, an optional sign,
    an optional [0x]/[0X], then the longest run of digits; [NaN] when that
    run is empty.  [Int n] carries the integer the digits denote; the code
    holds the double nearest to it, which is [n] itself up to 2^53 in
    magnitude. *)
Definition parseUnsigned (s : string) : JsInt :=
  match s with
  | String "0" (String "x" t) | String "0" (String "X" t) => parseHex t
  | _ => parseDec s
  end.

Definition parseInt (s : string) : JsInt :=
  match trimStart s with
  | String "-" t => negate (parseUnsigned t)
  | String "+" t => parseUnsigned t
  | t => parseUnsigned t
  end.

(** ** Session start *)

Definition highScoreKey (m : GameMode) : string :=
  ("highScore-" ++ modeLabel m)%string.

(** The initialiser of the [highScore] state:
    [saved ? parseInt(saved) : 0] with [saved = localStorage.getItem(key)].
    A missing entry is [null] and the empty string is falsy as well. *)
Definition readHighScore (m : GameMode) (ls : gmap string string) : JsInt :=
  match ls !! highScoreKey m with
  | None => Int 0
  | Some saved => if String.eqb saved EmptyString then Int 0 else parseInt saved
  end.

Definition initialRocket : GameObject := mkObject 100 300 40 60 5.

(** The initial value of the ref; [handleRestart] stores the same object. *)
Definition initialState : GameState :=
  mkState initialRocket [] ∅ 0 0 0 0 false 0.

Definition initWorld (m : GameMode) (ls : gmap string string) : World :=
  mkWorld m 0 false (readHighScore m ls) initialState ls.

(** ** Key handlers *)

(** [handleKeyDown]: [keys[e.key.toLowerCase()] = true] *)
Definition handleKeyDown (key : string) (w : World) : World :=
  setState (setKeys (<[toLowerCase key := true]> (keys (state w))) (state w)) w.

(** [handleKeyUp]: [keys[e.key.toLowerCase()] = false] *)
Definition handleKeyUp (key : string) (w : World) : World :=
  setState (setKeys (<[toLowerCase key := false]> (keys (state w))) (state w)) w.

(** [keys[k]] read as a condition: an absent key is [undefined], falsy. *)
Definition held (k : string) (ks : gmap string bool) : bool :=
  default false (ks !! k).

(** ** The frame *)

(** [checkCollision(rect1, rect2)]; each sum is a number, hence rounded. *)
Definition checkCollision (rect1 rect2 : GameObject) : bool :=
  Qltb (x rect1) (round64 (x rect2 + width rect2)) &&
  Qltb (x rect2) (round64 (x rect1 + width rect1)) &&
  Qltb (y rect1) (round64 (y rect2 + height rect2)) &&
  Qltb (y rect2) (round64 (y rect1 + height rect1)).

Definition moveSpeed (m : GameMode) : Q :=
  match m with G5 => 6 | G4 => 4 end.

(** "Move rocket": the four tests run in this order on the same object. *)
Definition moveRocket (m : GameMode) (ks : gmap string bool)
    (r : GameObject) : GameObject :=
  let r1 := if held "w" ks || held "arrowup" ks
            then setY (Qmax 0 (y r - moveSpeed m)) r else r in
  let r2 := if held "s" ks || held "arrowdown" ks
            then setY (Qmin (canvasHeight - height r1) (y r1 + moveSpeed m)) r1
            else r1 in
  let r3 := if held "a" ks || held "arrowleft" ks
            then setX (Qmax 0 (x r2 - moveSpeed m)) r2 else r2 in
  if held "d" ks || held "arrowright" ks
  then setX (Qmin (canvasWidth - width r3) (x r3 + moveSpeed m)) r3
  else r3.

Definition spawnRate (m : GameMode) : Z :=
  match m with G5 => 60 | G4 => 50 end.

Definition obstacleSpeed (m : GameMode) : Q :=
  match m with G5 => 4 | G4 => 3 end.

Definition obstacleSize (t : ObstacleType) : Q :=
  match t with meteor => 30 | satellite => 40 end.

Definition newObstacle (m : GameMode) (d : Draws) : Obstacle :=
  let obstacleType := if Qltb 0.5 (rType d) then meteor else satellite in
  let size := obstacleSize obstacleType in
  mkObstacle
    (mkObject canvasWidth (round64 (rY d * (canvasHeight - size))) size size
       (obstacleSpeed m))
    obstacleType.

(** "Spawn obstacles" *)
Definition spawnObstacle (m : GameMode) (d : Draws) (st : GameState)
    : GameState :=
  if (spawnRate m <? frameCount st - lastObstacleFrame st)%Z
  then setLastObstacleFrame (frameCount st)
         (setObstacles (obstacles st ++ [newObstacle m d]) st)
  else st.

(** [obstacles[i].x -= obstacles[i].speed] *)
Definition drift (o : Obstacle) : Obstacle :=
  mkObstacle (setX (x o - speed o) o) (type o).

(** [obstacles[i].x + obstacles[i].width < 0] *)
Definition offScreen (o : Obstacle) : bool := Qltb (x o + width o) 0.

(** "Move and remove obstacles": the loop [for (i = length - 1; i >= 0; i--)],
    entered with [n = obstacles.length]; index [n - 1] is handled first.
    It carries the array, [state.score] and the React [score] state.  An
    index outside the array would make [obstacles[i].x] throw; the loop
    never reaches one (see [moveObstacles_spec]), and the branch leaves the
    data alone. *)
Fixpoint moveObstacles (n : nat) (os : list Obstacle) (sc shown : Z)
    : list Obstacle * Z * Z :=
  match n with
  | O => (os, sc, shown)
  | S i =>
      match os !! i with
      | None => moveObstacles i os sc shown
      | Some o =>
          let os1 := <[i := drift o]> os in
          if offScreen (drift o)
          then moveObstacles i (delete i os1) (sc + 10)%Z (sc + 10)%Z
          else moveObstacles i os1 sc shown
      end
  end.

(** The body of the collision branch: [setGameOver(true)] and the
    high-score update.  [state.score > highScore] is false for [NaN]. *)
Definition exceeds (sc : Z) (h : JsInt) : bool :=
  match h with NaN => false | Int n => (n <? sc)%Z end.

Definition onCollision (w : World) : World :=
  let w1 := setGameOver true w in
  if exceeds (score (state w1)) (highScore w1)
  then setItem (highScoreKey (gameMode w1)) (toString (score (state w1)))
         (setHighScore (Int (score (state w1))) w1)
  else w1.

(** The part of [gameLoop] after the 4G block: rocket, spawn, obstacles,
    collision. *)
Definition updateGame (d : Draws) (w : World) : World :=
  let m := gameMode w in
  let st := state w in
  let st1 := setRocket (moveRocket m (keys st) (rocket st)) st in
  let st2 := spawnObstacle m d st1 in
  let '(os, sc, shown) :=
    moveObstacles (length (obstacles st2)) (obstacles st2) (score st2)
      (scoreState w) in
  let w3 := setScoreState shown (setState (setScore sc (setObstacles os st2)) w) in
  if existsb (fun obstacle : Obstacle => checkCollision (rocket (state w3)) obstacle) os
  then onCollision w3
  else w3.

(** "Random freeze": the coin is only tossed on a multiple of 120. *)
Definition lagTrigger (d : Draws) (st : GameState) : GameState :=
  if (Z.rem (frameCount st) 120 =? 0)%Z && Qltb 0.5 (rFreeze d)
  then setFreezeCounter 15 (setShouldFreeze true st)
  else st.

(** [state.shouldFreeze && state.freezeCounter > 0] *)
Definition freezing (st : GameState) : bool :=
  shouldFreeze st && (0 <? freezeCounter st)%Z.

(** [gameLoop] *)
Definition gameLoop (d : Draws) (w : World) : World :=
  if gameOver w then w
  else
    let st := setFrameCount (frameCount (state w) + 1) (state w) in
    match gameMode w with
    | G4 =>
        let st1 := lagTrigger d st in
        if freezing st1
        then setState (setFreezeCounter (freezeCounter st1 - 1) st1) w
        else updateGame d (setState (setShouldFreeze false st1) w)
    | G5 => updateGame d (setState st w)
    end.

(** [handleRestart] *)
Definition handleRestart (w : World) : World :=
  setState initialState (setScoreState 0 (setGameOver false w)).

(** ** Sessions *)

(** What can happen to the mounted component. *)
Inductive Event :=
| KeyDown (key : string)
| KeyUp (key : string)
| Frame (d : Draws)
| Restart.

Definition step (w : World) (e : Event) : World :=
  match e with
  | KeyDown k => handleKeyDown k w
  | KeyUp k => handleKeyUp k w
  | Frame d => gameLoop d w
  | Restart => handleRestart w
  end.

Definition run (es : list Event) (w : World) : World := fold_left step es w.

(** [frames ds w]: the driver invoked once per element of [ds], with no
    key event or restart in between. *)
Definition frames (ds : list Draws) (w : World) : World :=
  run (map Frame ds) w.

(** The states a session of mode [m] started over storage [ls] can be in;
    every draw is a [Math.random()] result. *)
Inductive eventOk : Event -> Prop :=
| ok_down k : eventOk (KeyDown k)
| ok_up k : eventOk (KeyUp k)
| ok_frame d : validDraws d -> eventOk (Frame d)
| ok_restart : eventOk Restart.

Inductive reachable (m : GameMode) (ls : gmap string string) : World -> Prop :=
| reach_init : reachable m ls (initWorld m ls)
| reach_step w e : reachable m ls w -> eventOk e -> reachable m ls (step w e).

(** Whether the frame [d] run in [w] is skipped by the 4G freeze. *)
Definition frozenFrame (d : Draws) (w : World) : bool :=
  match gameMode w with
  | G4 => freezing (lagTrigger d (setFrameCount (frameCount (state w) + 1) (state w)))
  | G5 => false
  end.

(** ** Notions used in the properties *)


(** A rectangle whose right and bottom edge are computed without rounding,
    as for integer coordinates. *)
Definition exactEdges (a : GameObject) : Prop :=
  isDouble (x a + width a) /\ isDouble (y a + height a).


(** A rocket and an obstacle whose boxes overlap by 2^-44: the obstacle
    ends at y = 512 + 2^-44, the rocket starts at y = 512. *)
Definition grazedRocket : GameObject := mkObject 100 512 40 60 5.

Definition grazingObstacle : GameObject :=
  mkObject 110 (482 + (1 # 17592186044416)) 30 30 3.

(** The boxes overlap: the four strict comparisons on the exact edges. *)
Definition overlap (a b : GameObject) : Prop :=
  x a < x b + width b /\ x b < x a + width a /\
  y a < y b + height b /\ y b < y a + height a.


(** The obstacles that leave the field on this frame, and those that stay,
    after the drift of the frame. *)
Definition cleared (os : list Obstacle) : list Obstacle :=
  List.filter offScreen (map drift os).

Definition remaining (os : list Obstacle) : list Obstacle :=
  List.filter (fun o => negb (offScreen o)) (map drift os).

Definition reward (os : list Obstacle) : Z :=
  (10 * Z.of_nat (length (cleared os)))%Z.

(** [state.frameCount++] *)
Definition ticked (w : World) : GameState :=
  setFrameCount (frameCount (state w) + 1) (state w).

(** The ref as the frame leaves the 4G block when it is not frozen. *)
Definition entry (d : Draws) (w : World) : GameState :=
  match gameMode w with
  | G4 => setShouldFreeze false (lagTrigger d (ticked w))
  | G5 => ticked w
  end.

(** The obstacle array as it enters the obstacle loop of a running frame:
    the obstacles of the previous frame and the one spawned on this frame,
    if any. *)
Definition entering (d : Draws) (w : World) : list Obstacle :=
  obstacles (spawnObstacle (gameMode w) d (ticked w)).

(** The world of a 5G session whose first [n] frames spawned nothing. *)
Definition quiet (ls : gmap string string) (n : Z) : World :=
  setState (setFrameCount n initialState) (initWorld G5 ls).

Definition rocketShape (r : GameObject) : Prop :=
  width r = 40 /\ height r = 60.

Definition inField (r : GameObject) : Prop :=
  (0 <= x r /\ x r <= canvasWidth - 40) /\
  (0 <= y r /\ y r <= canvasHeight - 60).

(** An obstacle as the obstacle loop finds it: not yet drifted this frame. *)
Definition atLoop (o : Obstacle) : Prop :=
  0 < speed o /\ x o <= canvasWidth.

(** An obstacle as a frame leaves it. *)
Definition drifted (o : Obstacle) : Prop :=
  0 < speed o /\ x o <= canvasWidth - speed o.

(** The write of the game-over branch: the key of the active mode receives
    the decimal numeral of the score, which is above the high score the
    component holds. *)
Definition recordWritten (w w' : World) : Prop :=
  gameOver w = false /\ gameOver w' = true /\
  exists h, highScore w = Int h /\ (h < score (state w'))%Z /\
    highScore w' = Int (score (state w')) /\
    localStorage w' =
      <[highScoreKey (gameMode w) := toString (score (state w'))]>
        (localStorage w).

Definition recordKept (w w' : World) : Prop :=
  localStorage w' = localStorage w /\ highScore w' = highScore w.

(** What a frozen frame leaves alone: everything but the frame counter and
    the freeze bookkeeping. *)
Definition sameGame (w w' : World) : Prop :=
  rocket (state w') = rocket (state w) /\
  obstacles (state w') = obstacles (state w) /\
  score (state w') = score (state w) /\
  lastObstacleFrame (state w') = lastObstacleFrame (state w) /\
  keys (state w') = keys (state w) /\
  gameMode w' = gameMode w /\ gameOver w' = gameOver w /\
  scoreState w' = scoreState w /\ highScore w' = highScore w /\
  localStorage w' = localStorage w.

Definition halves : Draws := mkDraws 0.75 0.25 0.5.

(** An obstacle about to leave, for the example below. *)
Definition leaving : Obstacle := mkObstacle (mkObject (-28) 100 30 30 4) meteor.

(** ** What a frame shows and emits *)

(** The calls a frame makes on its collaborators, in order. *)
Inductive Effect :=
| ToastLag
| ToastRecord
| DrawFrame (st : GameState)
| RequestFrame.

(** [toast.error("Connection lag...")], sent with the freeze trigger. *)
Definition lagToast (d : Draws) (st : GameState) : list Effect :=
  if (Z.rem (frameCount st) 120 =? 0)%Z && Qltb 0.5 (rFreeze d)
  then [ToastLag] else [].

(** The calls of the part of [gameLoop] after the 4G block: the collision
    branch sends [toast.success] with a new record and returns, a frame
    without collision draws and asks for the next frame. *)
Definition updateGameFx (d : Draws) (w : World) : list Effect :=
  let m := gameMode w in
  let st := state w in
  let st1 := setRocket (moveRocket m (keys st) (rocket st)) st in
  let st2 := spawnObstacle m d st1 in
  let '(os, sc, shown) :=
    moveObstacles (length (obstacles st2)) (obstacles st2) (score st2)
      (scoreState w) in
  let st3 := setScore sc (setObstacles os st2) in
  if existsb (fun obstacle : Obstacle => checkCollision (rocket st3) obstacle) os
  then (if exceeds (score st3) (highScore w) then [ToastRecord] else [])
  else [DrawFrame st3; RequestFrame].

(** The calls of [gameLoop]. *)
Definition gameLoopFx (d : Draws) (w : World) : list Effect :=
  if gameOver w then []
  else
    let st := setFrameCount (frameCount (state w) + 1) (state w) in
    match gameMode w with
    | G4 =>
        let st1 := lagTrigger d st in
        lagToast d st ++
        (if freezing st1
         then [DrawFrame (setFreezeCounter (freezeCounter st1 - 1) st1);
               RequestFrame]
         else updateGameFx d (setState (setShouldFreeze false st1) w))
    | G5 => updateGameFx d (setState st w)
    end.

(** [drawFrame], the star field: star [i] of the 50 is a 2 x 2 square at
    [((frameCount * 2 + i * 50) % canvas.width, (i * 37) % canvas.height)]. *)
Definition star (n i : Z) : Z * Z :=
  (Z.rem (n * 2 + i * 50) 800, Z.rem (i * 37) 600)%Z.

Definition stars (st : GameState) : list (Z * Z) :=
  map (star (frameCount st)) (seqZ 0 50).

(** [drawFrame], the "LOADING..." veil:
    [gameMode === "4G" && state.shouldFreeze]. *)
Definition loadingShown (m : GameMode) (st : GameState) : bool :=
  match m with
  | G4 => shouldFreeze st
  | G5 => false
  end.

(** The "NEW HIGH SCORE!" line of the game-over card:
    [gameOver && (score === highScore && score > 0)] on the React state. *)
Definition newHighScoreBadge (w : World) : bool :=
  gameOver w &&
  match highScore w with
  | NaN => false
  | Int h => (scoreState w =? h)%Z
  end &&
  (0 <? scoreState w)%Z.

(** ** The class-name helper *)

(** The values [cn] is handed: class strings, and what a condition leaves
    behind when it does not apply. *)
Inductive JsValue :=
| JsString (s : string)
| JsBool (b : bool)
| JsUndefined
| JsNull.

(** [Boolean(v)] *)
Definition truthy (v : JsValue) : bool :=
  match v with
  | JsString s => negb (String.eqb s EmptyString)
  | JsBool b => b
  | JsUndefined | JsNull => false
  end.

(** The text [join] writes for an element. *)
Definition joinText (v : JsValue) : string :=
  match v with
  | JsString s => s
  | JsBool true => "true"
  | JsBool false => "false"
  | JsUndefined | JsNull => EmptyString
  end.

(** [cn(...inputs)]: [inputs.filter(Boolean).join(" ")] *)
Definition cn (inputs : list JsValue) : string :=
  String.concat " " (map joinText (List.filter truthy inputs)).

(** ** Further notions used in the properties *)

(** An obstacle as the spawner makes them in mode [m], somewhere on its way
    across the field. *)
Definition onField (m : GameMode) (o : Obstacle) : Prop :=
  width o = obstacleSize (type o) /\ height o = obstacleSize (type o) /\
  speed o = obstacleSpeed m /\
  0 <= y o /\ y o < canvasHeight - height o /\
  0 <= x o + width o /\ x o <= canvasWidth - speed o.

(** What a finished game keeps under frames and key events: all but the
    held keys. *)
Definition sameButKeys (w w' : World) : Prop :=
  setState (setKeys (keys (state w)) (state w')) w' = w.

(** The bookkeeping of the 4G freeze at the end of a frame. *)
Definition freezeOk (m : GameMode) (st : GameState) : Prop :=
  lagFrames st = 0%Z /\
  (0 <= frameCount st)%Z /\
  (0 <= freezeCounter st <= 14)%Z /\
  ((0 < freezeCounter st)%Z ->
   shouldFreeze st = true /\
   Z.rem (frameCount st) 120 = (14 - freezeCounter st)%Z) /\
  (m = G5 -> shouldFreeze st = false /\ freezeCounter st = 0%Z).

(** The spawn clock of 5G after [k] spawns, with the score and the
    collection accounting for each of them. *)
Definition spawnLedger (k : Z) (st : GameState) : Prop :=
  (0 <= k)%Z /\ lastObstacleFrame st = (61 * k)%Z /\
  (0 <= frameCount st - lastObstacleFrame st <= 60)%Z /\
  (score st + 10 * Z.of_nat (length (obstacles st)) = 10 * k)%Z.

(** ** Comparisons *)

Lemma Qltb_lt (a b : Q) : Qltb a b = true <-> a < b.
Proof.
  unfold Qltb. rewrite negb_true_iff, <- not_true_iff_false, Qle_bool_iff.
  split; [apply Qnot_le_lt | apply Qlt_not_le].
Qed.

Lemma Qltb_ge (a b : Q) : Qltb a b = false <-> b <= a.
Proof.
  unfold Qltb. rewrite negb_false_iff. apply Qle_bool_iff.
Qed.

(** ** Rounding to a double *)

Lemma pow2_Qpower (u : Z) : pow2 u == 2 ^ u.
Proof.
  unfold pow2. destruct (Z.leb_spec 0 u) as [H | H].
  - now rewrite (Zpower_Qpower 2 u H).
  - rewrite (Zpower_Qpower 2 (- u)) by lia.
    rewrite <- Qpower_opp. now rewrite Z.opp_involutive.
Qed.

Lemma pow2_pos (u : Z) : 0 < pow2 u.
Proof. rewrite pow2_Qpower. apply Qpower_0_lt. reflexivity. Qed.

Lemma pow2_add (a b : Z) : pow2 (a + b) == pow2 a * pow2 b.
Proof. rewrite !pow2_Qpower. apply Qpower_plus. discriminate. Qed.

Lemma pow2_le (a b : Z) : (a <= b)%Z -> pow2 a <= pow2 b.
Proof.
  intros H. rewrite !pow2_Qpower. apply Qpower_le_compat_l; [exact H|].
  discriminate.
Qed.

Lemma pow2_lt (a b : Z) : (a < b)%Z -> pow2 a < pow2 b.
Proof.
  intros H. rewrite !pow2_Qpower. apply Qpower_lt_compat_l; [exact H|].
  reflexivity.
Qed.

Lemma pow2_lt_inv (a b : Z) : pow2 a < pow2 b -> (a < b)%Z.
Proof.
  intros H. destruct (Z.lt_ge_cases a b) as [L | G]; [exact L|].
  apply pow2_le in G. lra.
Qed.

Lemma pow2_nonneg_Z (u : Z) : (0 <= u)%Z -> pow2 u = inject_Z (2 ^ u).
Proof.
  intros H. unfold pow2. destruct (Z.leb_spec 0 u); [reflexivity | lia].
Qed.

Lemma Qabs_of_pos (q : Q) : 0 < q -> Qabs q = q.
Proof.
  destruct q as [n d]. unfold Qlt, Qabs. simpl. intros H.
  f_equal. apply Z.abs_eq. lia.
Qed.

Lemma Qinv_le_swap (a M : Q) : 0 < a -> / a <= M -> / M <= a.
Proof.
  intros Ha H.
  assert (Hi : 0 < / a) by (now apply Qinv_lt_0_compat).
  assert (HM : 0 < M) by lra.
  assert (Hj : 0 < / M) by (now apply Qinv_lt_0_compat).
  assert (E1 : a * / a == 1) by (field; lra).
  assert (E2 : M * / M == 1) by (field; lra).
  set (i := / a) in *. set (j := / M) in *. nra.
Qed.

Lemma Qinv_lt_swap (a M : Q) : 0 < a -> 0 < M -> M < / a -> a < / M.
Proof.
  intros Ha HM H.
  assert (Hi : 0 < / a) by (now apply Qinv_lt_0_compat).
  assert (Hj : 0 < / M) by (now apply Qinv_lt_0_compat).
  assert (E1 : a * / a == 1) by (field; lra).
  assert (E2 : M * / M == 1) by (field; lra).
  set (i := / a) in *. set (j := / M) in *. nra.
Qed.

(** A positive number lies in the binade that [binade] names. *)
Lemma binade_bounds (q : Q) :
  0 < q -> pow2 (binade q) <= q /\ q < pow2 (binade q + 1).
Proof.
  intros Hq. unfold binade. rewrite (Qabs_of_pos q Hq).
  destruct (Qle_bool 1 q) eqn:E.
  - apply Qle_bool_iff in E.
    assert (Hf : (1 <= Qfloor q)%Z).
    { change 1%Z with (Qfloor 1). now apply Qfloor_resp_le. }
    destruct (Z.log2_spec (Qfloor q)) as [Hlo Hhi]; [lia|].
    pose proof (Z.log2_nonneg (Qfloor q)) as He.
    set (e := Z.log2 (Qfloor q)) in *.
    rewrite !pow2_nonneg_Z by lia.
    pose proof (Qfloor_le q) as F1. pose proof (Qlt_floor q) as F2.
    split.
    + apply Qle_trans with (inject_Z (Qfloor q)); [|exact F1].
      rewrite <- Zle_Qle. exact Hlo.
    + apply Qlt_le_trans with (inject_Z (Qfloor q + 1)); [exact F2|].
      rewrite <- Zle_Qle. unfold Z.succ in Hhi. lia.
  - assert (H1 : q < 1).
    { apply Qnot_le_lt. intros H. apply Qle_bool_iff in H. congruence. }
    assert (Hi : 1 < / q).
    { assert (0 < / q) by (now apply Qinv_lt_0_compat).
      assert (E1 : q * / q == 1) by (field; lra).
      set (i := / q) in *. nra. }
    pose proof (Qle_ceiling (/ q)) as C1.
    pose proof (Qceiling_lt (/ q)) as C2.
    set (c := Qceiling (/ q)) in *.
    assert (Hc : (1 < c)%Z).
    { rewrite Zlt_Qlt. change (inject_Z 1) with 1. lra. }
    destruct (Z.log2_up_spec c Hc) as [Hlo Hhi].
    pose proof (Z.log2_up_pos c Hc) as HL.
    set (L := Z.log2_up c) in *.
    assert (P1 : pow2 (- L) == / inject_Z (2 ^ L)).
    { unfold pow2. destruct (Z.leb_spec 0 (- L)); [lia|].
      now rewrite Z.opp_involutive. }
    assert (P2 : pow2 (- L + 1) == / inject_Z (2 ^ (L - 1))).
    { destruct (Z.eq_dec L 1%Z) as [E1 | Hn]; [rewrite E1; reflexivity|].
      unfold pow2. destruct (Z.leb_spec 0 (- L + 1)); [lia|].
      replace (- (- L + 1))%Z with (L - 1)%Z by lia. reflexivity. }
    rewrite P1, P2. split.
    + apply Qinv_le_swap; [exact Hq|].
      apply Qle_trans with (inject_Z c); [exact C1|].
      rewrite <- Zle_Qle. exact Hhi.
    + assert (Hp : (0 < 2 ^ (L - 1))%Z) by (apply Z.pow_pos_nonneg; lia).
      apply Qinv_lt_swap; [exact Hq | |].
      * change 0 with (inject_Z 0). rewrite <- Zlt_Qlt. exact Hp.
      * apply Qle_lt_trans with (inject_Z (c - 1)); [|exact C2].
        rewrite <- Zle_Qle. replace (L - 1)%Z with (Z.pred L) by lia. lia.
Qed.

Lemma roundHalfEven_near (x : Q) :
  x - (1 # 2) <= inject_Z (roundHalfEven x) /\
  inject_Z (roundHalfEven x) <= x + (1 # 2).
Proof.
  unfold roundHalfEven.
  pose proof (Qfloor_le x) as F1. pose proof (Qlt_floor x) as F2.
  rewrite inject_Z_plus in F2. change (inject_Z 1) with 1 in F2.
  set (f := Qfloor x) in *.
  destruct (Qltb (x - inject_Z f) (1 # 2)) eqn:E1.
  - apply Qltb_lt in E1. split; lra.
  - apply Qltb_ge in E1.
    assert (G : x - (1 # 2) <= inject_Z (f + 1) /\
                inject_Z (f + 1) <= x + (1 # 2)).
    { rewrite inject_Z_plus. change (inject_Z 1) with 1. split; lra. }
    destruct (Qltb (1 # 2) (x - inject_Z f)) eqn:E2; [exact G|].
    apply Qltb_ge in E2.
    destruct (Z.even f); [split; lra | exact G].
Qed.

Lemma roundHalfEven_nonneg (x : Q) : 0 <= x -> (0 <= roundHalfEven x)%Z.
Proof.
  intros H. pose proof (roundHalfEven_near x) as [N1 _].
  assert (G : inject_Z (-1) < inject_Z (roundHalfEven x)).
  { change (inject_Z (-1)) with (-1). lra. }
  rewrite <- Zlt_Qlt in G. lia.
Qed.

Lemma roundHalfEven_below (x : Q) (n : Z) :
  x <= inject_Z n -> (roundHalfEven x <= n)%Z.
Proof.
  intros H. pose proof (roundHalfEven_near x) as [_ N2].
  assert (G : inject_Z (roundHalfEven x) < inject_Z (n + 1)).
  { rewrite inject_Z_plus. change (inject_Z 1) with 1. lra. }
  rewrite <- Zlt_Qlt in G. lia.
Qed.

Lemma round64_of_pos (q : Q) :
  0 < q ->
  round64 q =
  inject_Z (roundHalfEven (q / pow2 (Z.max (binade q - 52) (-1074)))) *
  pow2 (Z.max (binade q - 52) (-1074)).
Proof.
  intros H. unfold round64. destruct (Qeq_bool q 0) eqn:E; [|reflexivity].
  apply Qeq_bool_iff in E. lra.
Qed.

Lemma round64_zero (q : Q) : q == 0 -> round64 q == 0.
Proof.
  intros H. unfold round64.
  destruct (Qeq_bool q 0) eqn:E; [reflexivity|].
  apply Qeq_bool_neq in E. contradiction.
Qed.

Lemma round64_nonneg (q : Q) : 0 <= q -> 0 <= round64 q.
Proof.
  intros H. destruct (Qeq_dec q 0) as [E | N].
  - rewrite (round64_zero q E). lra.
  - assert (Hq : 0 < q) by (apply Qle_lteq in H as [H | H]; [exact H|];
                            symmetry in H; contradiction).
    rewrite (round64_of_pos q Hq).
    set (u := Z.max (binade q - 52) (-1074)).
    pose proof (pow2_pos u) as Hp.
    assert (Hx : 0 <= q / pow2 u).
    { apply Qle_shift_div_l; [exact Hp | lra]. }
    apply roundHalfEven_nonneg in Hx. rewrite Zle_Qle in Hx.
    change (inject_Z 0) with 0 in Hx. nra.
Qed.

(** Rounding does not pass a power of two. *)
Lemma round64_le_pow2 (q : Q) (k : Z) :
  0 <= q -> q < pow2 k -> (-1074 <= k)%Z -> round64 q <= pow2 k.
Proof.
  intros H Hk Hmin. pose proof (pow2_pos k) as Hpk.
  destruct (Qeq_dec q 0) as [E | N].
  - rewrite (round64_zero q E). lra.
  - assert (Hq : 0 < q) by (apply Qle_lteq in H as [H | H]; [exact H|];
                            symmetry in H; contradiction).
    rewrite (round64_of_pos q Hq).
    destruct (binade_bounds q Hq) as [Blo _].
    assert (He : (binade q < k)%Z) by (apply pow2_lt_inv; lra).
    set (u := Z.max (binade q - 52) (-1074)).
    assert (Hu : (u <= k)%Z) by (unfold u; lia).
    pose proof (pow2_pos u) as Hp.
    assert (Hadd : pow2 k == pow2 (k - u) * pow2 u).
    { rewrite <- pow2_add. now replace (k - u + u)%Z with k by lia. }
    rewrite (pow2_nonneg_Z (k - u)) in Hadd by lia.
    assert (Hx : q / pow2 u <= inject_Z (2 ^ (k - u))).
    { apply Qle_shift_div_r; [exact Hp | lra]. }
    apply roundHalfEven_below in Hx. rewrite Zle_Qle in Hx.
    rewrite Hadd. nra.
Qed.

(** The largest double below 1 is 1 - 2^-53. *)
Lemma double_below_one (r : Q) :
  isDouble r -> 0 <= r -> r < 1 -> r <= 1 - pow2 (-53).
Proof.
  intros Hd H0 H1.
  assert (P53 : pow2 (-53) <= (1 # 2)).
  { apply (pow2_le (-53) (-1)). lia. }
  destruct (Qeq_dec r 0) as [E | N]; [lra|].
  assert (Hr : 0 < r) by (apply Qle_lteq in H0 as [H | H]; [exact H|];
                          symmetry in H; contradiction).
  destruct (binade_bounds r Hr) as [Blo Bhi].
  assert (He : (binade r < 0)%Z).
  { apply pow2_lt_inv. change (pow2 0) with 1. lra. }
  destruct (Z.eq_dec (binade r) (-1)%Z) as [E1 | Hn].
  - unfold isDouble in Hd. rewrite (round64_of_pos r Hr) in Hd.
    rewrite E1 in Hd. change (Z.max (-1 - 52) (-1074)) with (-53)%Z in Hd.
    set (k := roundHalfEven (r / pow2 (-53))) in *.
    assert (Hone : inject_Z (2 ^ 53) * pow2 (-53) == 1) by reflexivity.
    pose proof (pow2_pos (-53)) as Hp.
    assert (Hk : inject_Z k < inject_Z (2 ^ 53)) by nra.
    rewrite <- Zlt_Qlt in Hk.
    assert (Hk' : inject_Z k <= inject_Z (2 ^ 53 - 1)).
    { rewrite <- Zle_Qle. lia. }
    unfold Z.sub in Hk'. rewrite inject_Z_plus in Hk'.
    change (inject_Z (- (1))) with (- (1)) in Hk'. nra.
  - assert (B1 : pow2 (binade r + 1) <= (1 # 2)).
    { apply (pow2_le (binade r + 1) (-1)). lia. }
    lra.
Qed.

(** The vertical position drawn for an obstacle: a product with a double
    below 1 rounds to a value below the other factor. *)
Lemma round64_fraction (r B : Q) :
  isDouble r -> 0 <= r -> r < 1 -> 512 < B -> B <= 1024 ->
  0 <= round64 (r * B) /\ round64 (r * B) < B.
Proof.
  intros Hd H0 H1 HB1 HB2.
  pose proof (double_below_one r Hd H0 H1) as Hr.
  pose proof (pow2_pos (-53)) as Hp.
  assert (Hq0 : 0 <= r * B) by nra.
  split; [now apply round64_nonneg|].
  destruct (Qlt_le_dec (r * B) 512) as [Hlow | Hhigh].
  - apply Qle_lt_trans with (pow2 9); [|exact HB1].
    apply round64_le_pow2; [exact Hq0 | exact Hlow | lia].
  - assert (Hq : 0 < r * B) by lra.
    destruct (binade_bounds (r * B) Hq) as [Blo Bhi].
    assert (E9 : binade (r * B) = 9%Z).
    { assert ((binade (r * B) < 10)%Z).
      { apply pow2_lt_inv. change (pow2 10) with 1024. nra. }
      assert ((9 < binade (r * B) + 1)%Z).
      { apply pow2_lt_inv. change (pow2 9) with 512. lra. }
      lia. }
    rewrite (round64_of_pos _ Hq), E9.
    change (Z.max (9 - 52) (-1074)) with (-43)%Z.
    pose proof (pow2_pos (-43)) as Hp43.
    destruct (roundHalfEven_near (r * B / pow2 (-43))) as [_ N2].
    assert (Ex : r * B / pow2 (-43) * pow2 (-43) == r * B) by (field; lra).
    assert (E43 : 512 * pow2 (-53) == (1 # 2) * pow2 (-43)) by reflexivity.
    set (x := r * B / pow2 (-43)) in *.
    set (k := inject_Z (roundHalfEven x)) in *.
    nra.
Qed.

(** ** The collision detector *)








(** The test of the source: four strict comparisons, each against the
    rounded sum. *)
Lemma checkCollision_test (a b : GameObject) :
  checkCollision a b = true <->
  x a < round64 (x b + width b) /\ x b < round64 (x a + width a) /\
  y a < round64 (y b + height b) /\ y b < round64 (y a + height a).
Proof.
  unfold checkCollision.
  rewrite !andb_true_iff, !Qltb_lt. tauto.
Qed.

(** With exact edges the test is the overlap of the boxes. *)
Lemma checkCollision_overlap (a b : GameObject) :
  exactEdges a -> exactEdges b ->
  checkCollision a b = true <-> overlap a b.
Proof.
  unfold exactEdges, isDouble, overlap. intros [Hax Hay] [Hbx Hby].
  rewrite checkCollision_test, Hax, Hay, Hbx, Hby. tauto.
Qed.


(** ** The obstacle loop *)

Lemma cleared_snoc (os : list Obstacle) (o : Obstacle) :
  cleared (os ++ [o]) =
  cleared os ++ (if offScreen (drift o) then [drift o] else []).
Proof.
  unfold cleared. rewrite map_app, List.filter_app. simpl.
  now destruct (offScreen (drift o)).
Qed.

Lemma remaining_snoc (os : list Obstacle) (o : Obstacle) :
  remaining (os ++ [o]) =
  remaining os ++ (if offScreen (drift o) then [] else [drift o]).
Proof.
  unfold remaining. rewrite map_app, List.filter_app. simpl.
  now destruct (offScreen (drift o)).
Qed.

Lemma moveObstacles_app (pre : list Obstacle) :
  forall (suf : list Obstacle) (sc shown : Z),
    moveObstacles (length pre) (pre ++ suf) sc shown =
    (remaining pre ++ suf, (sc + reward pre)%Z,
     match cleared pre with [] => shown | _ => (sc + reward pre)%Z end).
Proof.
  induction pre as [|o pre IH] using rev_ind; intros suf sc shown.
  - simpl. unfold reward. simpl. now rewrite Z.add_0_r.
  - rewrite length_app, Nat.add_1_r. simpl moveObstacles.
    rewrite <- app_assoc. simpl app.
    rewrite list_lookup_middle by reflexivity.
    rewrite remaining_snoc. unfold reward. rewrite cleared_snoc.
    destruct (offScreen (drift o)) eqn:Hoff.
    + rewrite insert_app_r_alt by lia. rewrite Nat.sub_diag. simpl.
      rewrite delete_middle, IH, app_nil_r.
      rewrite length_app. simpl length. unfold reward.
      f_equal; [f_equal; lia|].
      destruct (cleared pre); simpl; lia.
    + rewrite insert_app_r_alt by lia. rewrite Nat.sub_diag. simpl.
      rewrite IH, app_nil_r, <- app_assoc. reflexivity.
Qed.

(** The loop of the source is a filter: it drifts every obstacle, keeps the
    ones still on the field in their order, and adds 10 per obstacle
    dropped. *)
Lemma moveObstacles_spec (os : list Obstacle) (sc shown : Z) :
  moveObstacles (length os) os sc shown =
  (remaining os, (sc + reward os)%Z,
   match cleared os with [] => shown | _ => (sc + reward os)%Z end).
Proof.
  rewrite <- (app_nil_r os) at 2.
  rewrite moveObstacles_app. now rewrite app_nil_r.
Qed.

Lemma remaining_cleared_length (os : list Obstacle) :
  (length (remaining os) + length (cleared os) = length os)%nat.
Proof.
  unfold remaining, cleared. rewrite <- (length_map drift os).
  induction (map drift os) as [|o l IH]; simpl; [reflexivity|].
  destruct (offScreen o); simpl; lia.
Qed.

(** ** The three kinds of frame *)

Lemma gameLoop_over (d : Draws) (w : World) :
  gameOver w = true -> gameLoop d w = w.
Proof. intros H. unfold gameLoop. now rewrite H. Qed.

Lemma gameLoop_frozen (d : Draws) (w : World) :
  gameOver w = false -> frozenFrame d w = true ->
  gameLoop d w =
  setState (setFreezeCounter (freezeCounter (lagTrigger d (ticked w)) - 1)
              (lagTrigger d (ticked w))) w.
Proof.
  intros Hg Hf. unfold gameLoop, frozenFrame in *. rewrite Hg.
  destruct (gameMode w); [|discriminate].
  fold (ticked w) in *. now rewrite Hf.
Qed.

Lemma gameLoop_running (d : Draws) (w : World) :
  gameOver w = false -> frozenFrame d w = false ->
  gameLoop d w = updateGame d (setState (entry d w) w).
Proof.
  intros Hg Hf. unfold gameLoop, frozenFrame, entry in *. rewrite Hg.
  destruct (gameMode w); [|reflexivity].
  fold (ticked w) in *. now rewrite Hf.
Qed.

Lemma lagTrigger_fields (d : Draws) (st : GameState) :
  rocket (lagTrigger d st) = rocket st /\
  obstacles (lagTrigger d st) = obstacles st /\
  keys (lagTrigger d st) = keys st /\
  score (lagTrigger d st) = score st /\
  frameCount (lagTrigger d st) = frameCount st /\
  lastObstacleFrame (lagTrigger d st) = lastObstacleFrame st.
Proof. unfold lagTrigger. now destruct (_ && _). Qed.

Lemma entry_fields (d : Draws) (w : World) :
  rocket (entry d w) = rocket (state w) /\
  obstacles (entry d w) = obstacles (state w) /\
  keys (entry d w) = keys (state w) /\
  score (entry d w) = score (state w) /\
  frameCount (entry d w) = (frameCount (state w) + 1)%Z /\
  lastObstacleFrame (entry d w) = lastObstacleFrame (state w).
Proof.
  unfold entry. destruct (gameMode w); simpl.
  - destruct (lagTrigger_fields d (ticked w)) as (-> & -> & -> & -> & -> & ->).
    now simpl.
  - tauto.
Qed.

Lemma onCollision_state (w : World) : state (onCollision w) = state w.
Proof. unfold onCollision. now destruct (exceeds _ _). Qed.

Lemma onCollision_gameMode (w : World) : gameMode (onCollision w) = gameMode w.
Proof. unfold onCollision. now destruct (exceeds _ _). Qed.

(** The ref after the running part of a frame. *)
Lemma updateGame_state (d : Draws) (w : World) :
  let st1 := setRocket (moveRocket (gameMode w) (keys (state w))
                          (rocket (state w))) (state w) in
  let st2 := spawnObstacle (gameMode w) d st1 in
  state (updateGame d w) =
  setScore (score st2 + reward (obstacles st2))
    (setObstacles (remaining (obstacles st2)) st2).
Proof.
  intros st1 st2. unfold updateGame. fold st1. fold st2.
  rewrite moveObstacles_spec.
  destruct (existsb _ _); [rewrite onCollision_state|]; reflexivity.
Qed.

Lemma spawnObstacle_fields (m : GameMode) (d : Draws) (st : GameState) :
  rocket (spawnObstacle m d st) = rocket st /\
  keys (spawnObstacle m d st) = keys st /\
  score (spawnObstacle m d st) = score st /\
  frameCount (spawnObstacle m d st) = frameCount st /\
  shouldFreeze (spawnObstacle m d st) = shouldFreeze st /\
  freezeCounter (spawnObstacle m d st) = freezeCounter st.
Proof. unfold spawnObstacle. now destruct (_ <? _)%Z. Qed.

Lemma spawnObstacle_obstacles (m : GameMode) (d : Draws) (st : GameState) :
  obstacles (spawnObstacle m d st) =
  if (spawnRate m <? frameCount st - lastObstacleFrame st)%Z
  then obstacles st ++ [newObstacle m d] else obstacles st.
Proof. unfold spawnObstacle. now destruct (_ <? _)%Z. Qed.

(** The fields of the ref after a running frame, from those before it. *)
Lemma running_fields (d : Draws) (w : World) :
  gameOver w = false -> frozenFrame d w = false ->
  let w' := gameLoop d w in
  rocket (state w') =
    moveRocket (gameMode w) (keys (state w)) (rocket (state w)) /\
  obstacles (state w') = remaining (entering d w) /\
  score (state w') = (score (state w) + reward (entering d w))%Z /\
  frameCount (state w') = (frameCount (state w) + 1)%Z /\
  keys (state w') = keys (state w).
Proof.
  intros Hg Hf w'. subst w'. rewrite gameLoop_running by assumption.
  rewrite updateGame_state. cbn [gameMode state setState].
  destruct (entry_fields d w) as (Er & Eo & Ek & Es & Ef & El).
  rewrite Er, Ek.
  set (st1 := setRocket _ (entry d w)).
  destruct (spawnObstacle_fields (gameMode w) d st1) as (Sr & Sk & Ss & Sf & _).
  assert (Hent : obstacles (spawnObstacle (gameMode w) d st1) = entering d w).
  { unfold entering. rewrite !spawnObstacle_obstacles. subst st1. simpl.
    now rewrite Ef, El, Eo. }
  cbn [rocket obstacles score frameCount keys setScore setObstacles].
  rewrite Sr, Ss, Sf, Sk, Hent. subst st1. simpl.
  now rewrite Es, Ef, Ek.
Qed.

Lemma frozen_fields (d : Draws) (w : World) :
  gameOver w = false -> frozenFrame d w = true ->
  let w' := gameLoop d w in
  rocket (state w') = rocket (state w) /\
  obstacles (state w') = obstacles (state w) /\
  score (state w') = score (state w) /\
  frameCount (state w') = (frameCount (state w) + 1)%Z /\
  keys (state w') = keys (state w) /\
  lastObstacleFrame (state w') = lastObstacleFrame (state w).
Proof.
  intros Hg Hf w'. subst w'. rewrite gameLoop_frozen by assumption.
  cbn [state setState setFreezeCounter rocket obstacles score frameCount keys
       lastObstacleFrame].
  destruct (lagTrigger_fields d (ticked w)) as (-> & -> & -> & -> & -> & ->).
  now simpl.
Qed.

(** ** Sessions without key events *)

Lemma frames_snoc (ds : list Draws) (d : Draws) (w : World) :
  frames (ds ++ [d]) w = gameLoop d (frames ds w).
Proof. unfold frames, run. now rewrite map_app, fold_left_app. Qed.

Lemma held_empty (k : string) : held k ∅ = false.
Proof. unfold held. now rewrite lookup_empty. Qed.

Lemma moveRocket_idle (m : GameMode) (r : GameObject) : moveRocket m ∅ r = r.
Proof. unfold moveRocket. now rewrite !held_empty. Qed.

(** A 5G frame with no key held and no obstacle around, before the spawn
    interval has passed, only counts the frame. *)
Lemma quiet_frame (ls : gmap string string) (n : Z) (d : Draws) :
  (n + 1 <= 60)%Z -> gameLoop d (quiet ls n) = quiet ls (n + 1).
Proof.
  intros Hn. unfold gameLoop, updateGame, quiet. simpl.
  rewrite moveRocket_idle. unfold spawnObstacle. simpl.
  rewrite Z.sub_0_r.
  destruct (Z.ltb_spec 60 (n + 1)) as [?|_]; [lia|]. reflexivity.
Qed.

Lemma quiet_frames (ls : gmap string string) (ds : list Draws) :
  (length ds <= 60)%nat ->
  frames ds (initWorld G5 ls) = quiet ls (Z.of_nat (length ds)).
Proof.
  induction ds as [|d ds IH] using rev_ind; intros Hlen.
  - reflexivity.
  - rewrite length_app in *. simpl in *.
    rewrite frames_snoc, IH by lia.
    rewrite quiet_frame by lia. f_equal. lia.
Qed.

(** A fresh obstacle is still on the field after its first drift. *)
Lemma newObstacle_stays (m : GameMode) (d : Draws) :
  offScreen (drift (newObstacle m d)) = false.
Proof.
  unfold newObstacle.
  destruct m; destruct (Qltb 0.5 (rType d)); reflexivity.
Qed.

(** The frame that follows 60 quiet ones spawns the first obstacle and
    drifts it once. *)
Lemma first_spawn (ls : gmap string string) (d : Draws) :
  obstacles (state (gameLoop d (quiet ls 60))) = [drift (newObstacle G5 d)].
Proof.
  destruct (running_fields d (quiet ls 60)) as (_ & Ho & _); try reflexivity.
  rewrite Ho. unfold entering, remaining. simpl.
  now rewrite newObstacle_stays.
Qed.

Lemma newObstacle_y_range (m : GameMode) (d : Draws) :
  unitDraw (rY d) ->
  0 <= y (newObstacle m d) /\
  y (newObstacle m d) <= canvasHeight - width (newObstacle m d).
Proof.
  intros (H0 & H1 & Hd). unfold newObstacle, canvasHeight. simpl.
  destruct (Qltb 0.5 (rType d)); simpl;
    match goal with
    | |- context [round64 (rY d * ?B)] =>
        destruct (round64_fraction (rY d) B Hd H0 H1) as [R0 R1];
        [lra | lra | split; lra]
    end.
Qed.

Lemma split_last (ds : list Draws) (n : nat) :
  length ds = S n -> exists ds' d, ds = ds' ++ [d] /\ length ds' = n.
Proof.
  intros Hlen. destruct ds as [|d ds] using rev_ind; [discriminate|].
  rewrite length_app in Hlen. simpl in Hlen.
  exists ds, d. split; [reflexivity | lia].
Qed.

(** ** The rocket stays on the field *)

Lemma moveSpeed_pos (m : GameMode) : 0 < moveSpeed m.
Proof. destruct m; reflexivity. Qed.

Lemma clamp_low (v s b : Q) :
  0 < s -> 0 <= v /\ v <= b -> 0 <= Qmax 0 (v - s) /\ Qmax 0 (v - s) <= b.
Proof.
  intros Hs [H0 Hb].
  destruct (Q.max_spec 0 (v - s)) as [[? E]|[? E]]; rewrite E; split; lra.
Qed.

Lemma clamp_high (v s b : Q) :
  0 < s -> 0 <= b -> 0 <= v /\ v <= b ->
  0 <= Qmin b (v + s) /\ Qmin b (v + s) <= b.
Proof.
  intros Hs Hb0 [H0 Hb].
  destruct (Q.min_spec b (v + s)) as [[? E]|[? E]]; rewrite E; split; lra.
Qed.

Lemma moveRocket_inField (m : GameMode) (ks : gmap string bool)
    (r : GameObject) :
  rocketShape r -> inField r ->
  rocketShape (moveRocket m ks r) /\ inField (moveRocket m ks r).
Proof.
  intros [Hw Hh] [Hx Hy]. pose proof (moveSpeed_pos m) as Hs.
  unfold moveRocket, rocketShape, inField.
  destruct (held "w" ks || held "arrowup" ks);
    destruct (held "s" ks || held "arrowdown" ks);
    destruct (held "a" ks || held "arrowleft" ks);
    destruct (held "d" ks || held "arrowright" ks);
    cbn [x y width height setX setY]; rewrite ?Hw, ?Hh;
    (split; [split; reflexivity | split]);
    repeat first
      [ apply clamp_high; [assumption | unfold canvasWidth, canvasHeight; lra |]
      | apply clamp_low; [assumption |]
      | assumption ].
Qed.

Lemma initialRocket_ok : rocketShape initialRocket /\ inField initialRocket.
Proof.
  unfold rocketShape, inField, initialRocket, canvasWidth, canvasHeight.
  simpl. repeat split; lra.
Qed.

(** The rocket of the world after any event, from the one before. *)
Lemma step_rocket (w : World) (e : Event) :
  rocket (state (step w e)) = rocket (state w) \/
  rocket (state (step w e)) = initialRocket \/
  rocket (state (step w e)) =
    moveRocket (gameMode w) (keys (state w)) (rocket (state w)).
Proof.
  destruct e as [k|k|d|]; simpl.
  - now left.
  - now left.
  - destruct (gameOver w) eqn:Hg.
    + left. now rewrite gameLoop_over.
    + destruct (frozenFrame d w) eqn:Hf.
      * left. now destruct (frozen_fields d w Hg Hf) as (-> & _).
      * right. right. now destruct (running_fields d w Hg Hf) as (-> & _).
  - right. now left.
Qed.

Lemma step_gameMode (w : World) (e : Event) : gameMode (step w e) = gameMode w.
Proof.
  destruct e as [k|k|d|]; try reflexivity. simpl.
  unfold gameLoop. destruct (gameOver w); [reflexivity|].
  assert (Hu : forall v, gameMode (updateGame d v) = gameMode v).
  { intros v. unfold updateGame. destruct (moveObstacles _ _ _ _) as [[? ?] ?].
    destruct (existsb _ _); [rewrite onCollision_gameMode|]; reflexivity. }
  destruct (gameMode w) eqn:Hm.
  - destruct (freezing _); [simpl; congruence|]. rewrite Hu. simpl. congruence.
  - rewrite Hu. simpl. congruence.
Qed.

Lemma reachable_gameMode (m : GameMode) (ls : gmap string string) (w : World) :
  reachable m ls w -> gameMode w = m.
Proof.
  induction 1 as [|w e _ IH _]; [reflexivity|]. now rewrite step_gameMode.
Qed.

Lemma reachable_rocket (m : GameMode) (ls : gmap string string) (w : World) :
  reachable m ls w ->
  rocketShape (rocket (state w)) /\ inField (rocket (state w)).
Proof.
  induction 1 as [|w e _ IH _]; [apply initialRocket_ok|].
  destruct (step_rocket w e) as [-> | [-> | ->]].
  - exact IH.
  - apply initialRocket_ok.
  - now apply moveRocket_inField.
Qed.

(** ** Obstacles are past the right edge at the end of a frame *)

Lemma drifted_atLoop (o : Obstacle) : drifted o -> atLoop o.
Proof. unfold drifted, atLoop. intros [? ?]. split; [assumption | lra]. Qed.

Lemma drift_drifted (o : Obstacle) : atLoop o -> drifted (drift o).
Proof. unfold drifted, atLoop, drift. simpl. intros [? ?]. split; [assumption | lra]. Qed.

Lemma newObstacle_atLoop (m : GameMode) (d : Draws) : atLoop (newObstacle m d).
Proof.
  unfold atLoop, newObstacle. simpl. split; [destruct m; reflexivity | lra].
Qed.

Lemma remaining_drifted (os : list Obstacle) :
  Forall atLoop os -> Forall drifted (remaining os).
Proof.
  intros H. unfold remaining. rewrite List.Forall_forall in *.
  intros o Ho. apply filter_In in Ho as [Ho _].
  apply in_map_iff in Ho as (o' & <- & Ho'). apply drift_drifted. now apply H.
Qed.

Lemma entering_cases (d : Draws) (w : World) :
  entering d w = obstacles (state w) \/
  entering d w = obstacles (state w) ++ [newObstacle (gameMode w) d].
Proof.
  unfold entering. rewrite spawnObstacle_obstacles. simpl.
  destruct (_ <? _)%Z; [now right | now left].
Qed.

Lemma entering_atLoop (d : Draws) (w : World) :
  Forall drifted (obstacles (state w)) -> Forall atLoop (entering d w).
Proof.
  intros H.
  assert (H' : Forall atLoop (obstacles (state w))).
  { eapply List.Forall_impl; [|exact H]. apply drifted_atLoop. }
  destruct (entering_cases d w) as [-> | ->]; [assumption|].
  apply Forall_app. split; [assumption|].
  constructor; [apply newObstacle_atLoop | constructor].
Qed.

(** The obstacles of the world after any event, from those before. *)
Lemma step_obstacles (w : World) (e : Event) :
  obstacles (state (step w e)) = obstacles (state w) \/
  obstacles (state (step w e)) = [] \/
  exists d, obstacles (state (step w e)) = remaining (entering d w).
Proof.
  destruct e as [k|k|d|]; simpl.
  - now left.
  - now left.
  - destruct (gameOver w) eqn:Hg.
    + left. now rewrite gameLoop_over.
    + destruct (frozenFrame d w) eqn:Hf.
      * left. now destruct (frozen_fields d w Hg Hf) as (_ & -> & _).
      * right. right. exists d.
        now destruct (running_fields d w Hg Hf) as (_ & -> & _).
  - right. now left.
Qed.

Lemma reachable_drifted (m : GameMode) (ls : gmap string string) (w : World) :
  reachable m ls w -> Forall drifted (obstacles (state w)).
Proof.
  induction 1 as [|w e _ IH _]; [constructor|].
  destruct (step_obstacles w e) as [-> | [-> | [d ->]]].
  - exact IH.
  - constructor.
  - apply remaining_drifted. now apply entering_atLoop.
Qed.

(** ** Score and storage *)

Lemma reward_nonneg (os : list Obstacle) : (0 <= reward os)%Z.
Proof. unfold reward. lia. Qed.

Lemma step_score (w : World) (e : Event) :
  e <> Restart -> (score (state w) <= score (state (step w e)))%Z.
Proof.
  destruct e as [k|k|d|]; simpl; intros He; try lia; [|congruence].
  destruct (gameOver w) eqn:Hg.
  - rewrite gameLoop_over by assumption. lia.
  - destruct (frozenFrame d w) eqn:Hf.
    + destruct (frozen_fields d w Hg Hf) as (_ & _ & -> & _). lia.
    + destruct (running_fields d w Hg Hf) as (_ & _ & -> & _).
      pose proof (reward_nonneg (entering d w)). lia.
Qed.

Lemma reachable_score (m : GameMode) (ls : gmap string string) (w : World) :
  reachable m ls w -> (0 <= score (state w))%Z.
Proof.
  induction 1 as [|w e _ IH _]; [simpl; lia|].
  assert (Hr : e = Restart \/ e <> Restart).
  { destruct e; (now left) || (right; discriminate). }
  destruct Hr as [-> | Hne]; [simpl; lia|].
  pose proof (step_score w e Hne). lia.
Qed.

(** ** Reading back a written score *)

Lemma decPrefix_numeral (d : Decimal.uint) :
  decPrefix (NilEmpty.string_of_uint d) = d.
Proof. induction d; simpl; congruence. Qed.

Lemma parseUnsigned_numeral (d : Decimal.uint) :
  d <> Decimal.Nil ->
  parseUnsigned (NilEmpty.string_of_uint d) = Int (Z.of_uint d).
Proof.
  intros Hd.
  assert (E : parseUnsigned (NilEmpty.string_of_uint d) =
              parseDec (NilEmpty.string_of_uint d)).
  { destruct d as [|d'| | | | | | | | |]; try reflexivity.
    destruct d'; reflexivity. }
  rewrite E. unfold parseDec. rewrite decPrefix_numeral.
  destruct d; congruence.
Qed.

Lemma parseInt_numeral (d : Decimal.uint) :
  d <> Decimal.Nil ->
  parseInt (NilEmpty.string_of_uint d) = Int (Z.of_uint d).
Proof.
  intros Hd. rewrite <- (parseUnsigned_numeral d Hd).
  destruct d; try congruence; reflexivity.
Qed.

Lemma to_int_nonnil (n : Z) :
  match Z.to_int n with Decimal.Pos d | Decimal.Neg d => d <> Decimal.Nil end.
Proof.
  destruct n; simpl; try apply DecimalPos.Unsigned.to_uint_nonnil.
  discriminate.
Qed.

Lemma string_of_uint_nonnil (d : Decimal.uint) :
  d <> Decimal.Nil -> NilZero.string_of_uint d = NilEmpty.string_of_uint d.
Proof. destruct d; congruence || reflexivity. Qed.

(** [parseInt] reads back what [toString] wrote. *)
Lemma parseInt_toString (n : Z) : parseInt (toString n) = Int n.
Proof.
  unfold toString. rewrite <- (DecimalZ.of_to n) at 2.
  pose proof (to_int_nonnil n) as Hd.
  destruct (Z.to_int n) as [d|d]; simpl.
  - rewrite string_of_uint_nonnil by assumption. now apply parseInt_numeral.
  - rewrite string_of_uint_nonnil by assumption.
    unfold parseInt. simpl. now rewrite parseUnsigned_numeral.
Qed.

Lemma toString_nonempty (n : Z) : String.eqb (toString n) EmptyString = false.
Proof.
  unfold toString. pose proof (to_int_nonnil n) as Hd.
  destruct (Z.to_int n) as [d|d]; simpl; [|reflexivity].
  destruct d; congruence || reflexivity.
Qed.

Lemma readHighScore_written (m : GameMode) (ls : gmap string string) (n : Z) :
  readHighScore m (<[highScoreKey m := toString n]> ls) = Int n.
Proof.
  unfold readHighScore. rewrite lookup_insert_eq, toString_nonempty.
  apply parseInt_toString.
Qed.




(** ** When the storage is written *)

Lemma onCollision_record (w : World) :
  gameOver w = false ->
  recordKept w (onCollision w) \/ recordWritten w (onCollision w).
Proof.
  intros Hg. unfold onCollision. cbn [state highScore setGameOver gameMode].
  destruct (highScore w) as [|h] eqn:Hh; simpl.
  - left. split; [reflexivity | now simpl].
  - destruct (Z.ltb_spec h (score (state w))) as [Hlt|Hge].
    + right. split; [assumption|]. split; [reflexivity|].
      exists h. now simpl.
    + left. split; [reflexivity | now simpl].
Qed.

Lemma updateGame_record (d : Draws) (w : World) :
  gameOver w = false ->
  recordKept w (updateGame d w) \/ recordWritten w (updateGame d w).
Proof.
  intros Hg. unfold updateGame.
  destruct (moveObstacles _ _ _ _) as [[os sc] shown].
  set (w3 := setScoreState shown _).
  destruct (existsb _ _).
  - destruct (onCollision_record w3 Hg) as [H|H]; [left|right]; exact H.
  - left. split; reflexivity.
Qed.

Lemma step_record (w : World) (e : Event) :
  recordKept w (step w e) \/
  (exists d, e = Frame d) /\ recordWritten w (step w e).
Proof.
  destruct e as [k|k|d|]; simpl; try (left; split; reflexivity).
  destruct (gameOver w) eqn:Hg.
  - left. rewrite gameLoop_over by assumption. split; reflexivity.
  - destruct (frozenFrame d w) eqn:Hf.
    + left. rewrite gameLoop_frozen by assumption. split; reflexivity.
    + rewrite gameLoop_running by assumption.
      destruct (updateGame_record d (setState (entry d w) w) Hg) as [H|H].
      * left. exact H.
      * right. split; [now exists d | exact H].
Qed.

(** The high score the component holds is the one in the storage. *)
Lemma reachable_highScore (m : GameMode) (ls : gmap string string) (w : World) :
  reachable m ls w -> highScore w = readHighScore m (localStorage w).
Proof.
  induction 1 as [|w e Hr IH _]; [reflexivity|].
  destruct (step_record w e) as [[Hs Hh] | [_ (_ & _ & h & _ & _ & Hh & Hs)]].
  - now rewrite Hs, Hh.
  - rewrite Hs, Hh, (reachable_gameMode m ls w Hr).
    now rewrite readHighScore_written.
Qed.

(** ** Freezes *)

Lemma frames_cons (d : Draws) (ds : list Draws) (w : World) :
  frames (d :: ds) w = frames ds (gameLoop d w).
Proof. reflexivity. Qed.

Lemma sameGame_refl (w : World) : sameGame w w.
Proof. repeat split. Qed.

Lemma sameGame_trans (w1 w2 w3 : World) :
  sameGame w1 w2 -> sameGame w2 w3 -> sameGame w1 w3.
Proof.
  unfold sameGame. intros H1 H2.
  repeat match goal with H : _ /\ _ |- _ => destruct H end.
  repeat split; congruence.
Qed.

(** A frame of an ongoing freeze, off the multiples of 120: it counts down
    and changes nothing else. *)
Lemma freeze_frame (d : Draws) (w : World) :
  gameMode w = G4 -> gameOver w = false ->
  shouldFreeze (state w) = true -> (0 < freezeCounter (state w))%Z ->
  Z.rem (frameCount (state w) + 1) 120 <> 0%Z ->
  let w' := gameLoop d w in
  sameGame w w' /\ shouldFreeze (state w') = true /\
  freezeCounter (state w') = (freezeCounter (state w) - 1)%Z /\
  frameCount (state w') = (frameCount (state w) + 1)%Z.
Proof.
  intros Hm Hg Hs Hc Hr w'. subst w'.
  unfold gameLoop. rewrite Hg, Hm. unfold lagTrigger. simpl.
  destruct (Z.eqb_spec (Z.rem (frameCount (state w) + 1) 120) 0) as [?|_];
    [contradiction|].
  simpl. unfold freezing. simpl. rewrite Hs.
  destruct (Z.ltb_spec 0 (freezeCounter (state w))) as [_|?]; [|lia].
  simpl. repeat split; assumption.
Qed.

(** The frame on which the coin falls right: the freeze starts and this
    very frame is the first frozen one. *)
Lemma trigger_frame (d : Draws) (w : World) :
  gameMode w = G4 -> gameOver w = false ->
  Z.rem (frameCount (state w) + 1) 120 = 0%Z -> 0.5 < rFreeze d ->
  let w' := gameLoop d w in
  frozenFrame d w = true /\
  sameGame w w' /\ shouldFreeze (state w') = true /\
  freezeCounter (state w') = 14%Z /\
  frameCount (state w') = (frameCount (state w) + 1)%Z.
Proof.
  intros Hm Hg Hr Hd w'. subst w'. apply Qltb_lt in Hd.
  unfold frozenFrame, gameLoop. rewrite Hg, Hm. unfold lagTrigger. simpl.
  rewrite Hr, Hd. simpl. repeat split; assumption.
Qed.

(** The frame after the countdown: it is not frozen and runs the update. *)
Lemma thaw_frame (d : Draws) (w : World) :
  gameMode w = G4 -> gameOver w = false ->
  freezeCounter (state w) = 0%Z ->
  Z.rem (frameCount (state w) + 1) 120 <> 0%Z ->
  frozenFrame d w = false /\
  gameLoop d w = updateGame d (setState (setShouldFreeze false (ticked w)) w) /\
  shouldFreeze (state (gameLoop d w)) = false.
Proof.
  intros Hm Hg Hc Hr.
  assert (Hl : lagTrigger d (ticked w) = ticked w).
  { unfold lagTrigger. simpl.
    destruct (Z.eqb_spec (Z.rem (frameCount (state w) + 1) 120) 0) as [?|_];
      [contradiction | reflexivity]. }
  assert (Hf : frozenFrame d w = false).
  { unfold frozenFrame. rewrite Hm. fold (ticked w). rewrite Hl.
    unfold freezing. simpl. rewrite Hc. apply andb_false_r. }
  split; [exact Hf|].
  rewrite gameLoop_running by assumption. unfold entry. rewrite Hm, Hl.
  split; [reflexivity|].
  rewrite updateGame_state. cbn [gameMode state setState].
  cbn [shouldFreeze setScore setObstacles].
  destruct (spawnObstacle_fields (gameMode w) d
    (setRocket (moveRocket (gameMode w) (keys (setShouldFreeze false (ticked w)))
       (rocket (setShouldFreeze false (ticked w))))
       (setShouldFreeze false (ticked w)))) as (_ & _ & _ & _ & -> & _).
  reflexivity.
Qed.

Lemma freeze_frame_frozen (d : Draws) (w : World) :
  gameMode w = G4 ->
  shouldFreeze (state w) = true -> (0 < freezeCounter (state w))%Z ->
  Z.rem (frameCount (state w) + 1) 120 <> 0%Z ->
  frozenFrame d w = true.
Proof.
  intros Hm Hs Hc Hr. unfold frozenFrame. rewrite Hm. unfold lagTrigger. simpl.
  destruct (Z.eqb_spec (Z.rem (frameCount (state w) + 1) 120) 0) as [?|_];
    [contradiction|].
  simpl. unfold freezing. simpl. rewrite Hs.
  destruct (Z.ltb_spec 0 (freezeCounter (state w))) as [_|?]; [reflexivity|lia].
Qed.

(** A run of frames inside a freeze. *)
Lemma frozen_run (ds : list Draws) :
  forall w : World,
    gameMode w = G4 -> gameOver w = false ->
    shouldFreeze (state w) = true ->
    (Z.of_nat (length ds) <= freezeCounter (state w))%Z ->
    (forall j, (1 <= j <= Z.of_nat (length ds))%Z ->
               Z.rem (frameCount (state w) + j) 120 <> 0%Z) ->
    let w' := frames ds w in
    sameGame w w' /\ shouldFreeze (state w') = true /\
    freezeCounter (state w') =
      (freezeCounter (state w) - Z.of_nat (length ds))%Z /\
    frameCount (state w') = (frameCount (state w) + Z.of_nat (length ds))%Z.
Proof.
  induction ds as [|d ds IH]; intros w Hm Hg Hs Hc Hr.
  - change (frames [] w) with w. simpl length.
    split; [apply sameGame_refl|]. split; [assumption|]. split; lia.
  - simpl length in *. rewrite frames_cons.
    destruct (freeze_frame d w) as (Hsame & Hs1 & Hc1 & Hf1);
      try assumption; [lia | apply Hr; lia |].
    pose proof Hsame as (_ & _ & _ & _ & _ & Hm1 & Hg1 & _).
    destruct (IH (gameLoop d w)) as (Hsame' & Hs' & Hc' & Hf');
      try congruence; [lia | |].
    { intros j Hj. rewrite Hf1.
      replace (frameCount (state w) + 1 + j)%Z
        with (frameCount (state w) + (1 + j))%Z by lia.
      apply Hr. lia. }
    split; [eapply sameGame_trans; eassumption|].
    split; [assumption|]. split; lia.
Qed.

(** * Properties of the game core *)

Lemma halves_valid : validDraws halves.
Proof.
  unfold validDraws, unitDraw, isDouble, halves. simpl.
  repeat split; try lra; vm_compute; reflexivity.
Defined.

Lemma repeat_valid (n : nat) : Forall validDraws (repeat halves n).
Proof.
  induction n as [|n IH]; simpl; constructor; [exact halves_valid | exact IH].
Defined.

(** C1, as the claim states it, fails: in 5G mode, from the initial state
    with no key held and no obstacle, 60 frames leave the collection empty
    (the spawn test is [frameCount - lastObstacleFrame > 60]). *)
Lemma no_obstacle_after_60_frames :
  ~ exists o : Obstacle,
      obstacles (state (frames (repeat halves 60) (initWorld G5 ∅))) = [o].
Proof.
  rewrite quiet_frames by (rewrite repeat_length; lia).
  intros [o Ho]. discriminate Ho.
Qed.

(** C1 (amended): in 5G mode, from the initial state with no key held and
    no obstacle, the collection is still empty after 60 driver frames, and
    after exactly 61 frames exactly one obstacle exists; its x equals
    800 - 1 * speed = 796 (the spawning frame is the one frame that has
    moved it), its y lies within [0, 600 - size], and it is a square of
    that size. *)
Theorem first_obstacle_after_61_frames
    (ls : gmap string string) (ds : list Draws) :
  length ds = 61%nat -> Forall validDraws ds ->
  obstacles (state (frames (take 60 ds) (initWorld G5 ls))) = [] /\
  exists o : Obstacle,
    obstacles (state (frames ds (initWorld G5 ls))) = [o] /\
    x o == 800 - 1 * speed o /\ x o == 796 /\
    0 <= y o /\ y o <= 600 - width o /\ height o = width o.
Proof.
  intros Hlen Hvalid.
  destruct (split_last ds 60 Hlen) as (ds' & d & -> & Hlen').
  rewrite take_app_length' by lia.
  apply Forall_app in Hvalid as [_ Hd].
  apply Forall_inv in Hd. destruct Hd as (_ & _ & Hy).
  rewrite frames_snoc, !quiet_frames by lia. rewrite Hlen'.
  split; [reflexivity|].
  exists (drift (newObstacle G5 d)). split; [apply first_spawn|].
  destruct (newObstacle_y_range G5 d Hy) as [Hy0 Hy1].
  unfold canvasHeight in Hy1.
  split; [simpl; unfold canvasWidth; lra|].
  split; [simpl; unfold canvasWidth; lra|].
  split; [exact Hy0|]. split; [exact Hy1|].
  unfold newObstacle. now destruct (Qltb 0.5 (rType d)).
Qed.

Lemma first_obstacle_after_61_frames_witness :
  exists o : Obstacle,
    obstacles (state (frames (repeat halves 61) (initWorld G5 ∅))) = [o] /\
    x o == 796.
Proof.
  destruct (first_obstacle_after_61_frames ∅ (repeat halves 61)
              (repeat_length halves 61) (repeat_valid 61))
    as (_ & o & Ho & _ & Hx & _).
  exists o. split; [exact Ho | exact Hx].
Defined.

(** C2 (the code departs from the claim): the spawn interval of 5G is 60
    frames and that of 4G is 50, so 5G does not spawn more often than 4G,
    against the comment "5G: more frequent" on that line. *)
Theorem spawnRate_5G_above_4G :
  spawnRate G5 = 60%Z /\ spawnRate G4 = 50%Z /\
  ~ (spawnRate G5 < spawnRate G4)%Z.
Proof. repeat split. simpl. lia. Qed.




(** C4: in every reachable state, whatever keys were pressed and released,
    the rocket is 40 wide and 60 high and its position satisfies
    0 <= x <= 800 - 40 and 0 <= y <= 600 - 60. *)
Theorem rocket_within_field
    (m : GameMode) (ls : gmap string string) (w : World) :
  reachable m ls w ->
  width (rocket (state w)) = 40 /\ height (rocket (state w)) = 60 /\
  0 <= x (rocket (state w)) /\ x (rocket (state w)) <= 800 - 40 /\
  0 <= y (rocket (state w)) /\ y (rocket (state w)) <= 600 - 60.
Proof.
  intros Hr. destruct (reachable_rocket m ls w Hr) as [[Hw Hh] [[? ?] [? ?]]].
  unfold canvasWidth, canvasHeight in *. tauto.
Qed.

Lemma rocket_within_field_witness :
  0 <= x (rocket (state (run [KeyDown "ArrowLeft"; Frame halves; Frame halves]
                           (initWorld G5 ∅)))) /\
  x (rocket (state (run [KeyDown "ArrowLeft"; Frame halves; Frame halves]
                      (initWorld G5 ∅)))) <= 800 - 40.
Proof.
  assert (Hr : reachable G5 ∅
                 (run [KeyDown "ArrowLeft"; Frame halves; Frame halves]
                    (initWorld G5 ∅))).
  { exact (reach_step _ _ _ (Frame halves)
             (reach_step _ _ _ (Frame halves)
                (reach_step _ _ _ (KeyDown "ArrowLeft") (reach_init G5 ∅)
                   (ok_down _))
                (ok_frame _ halves_valid))
             (ok_frame _ halves_valid)). }
  destruct (rocket_within_field G5 ∅ _ Hr) as (_ & _ & H0 & H1 & _).
  split; [exact H0 | exact H1].
Defined.

(** C5: in 4G mode, when a frame sets the freeze counter to 15 (the frame
    number is a multiple of 120 and the coin is above 0.5), exactly 15
    frames, that one included, are frozen: each leaves rocket, obstacles,
    score, spawn clock, game-over flag and storage as they were and takes
    one off the counter; the frame after them is not frozen and runs the
    normal update. *)
Theorem freeze_lasts_15_frames (w : World) (ds : list Draws) (d' : Draws) :
  gameMode w = G4 -> gameOver w = false ->
  Z.rem (frameCount (state w) + 1) 120 = 0%Z ->
  length ds = 15%nat ->
  (forall d, head ds = Some d -> 0.5 < rFreeze d) ->
  (forall (k : nat) (dk : Draws),
     ds !! k = Some dk ->
     let before := frames (take k ds) w in
     let after := gameLoop dk before in
     frozenFrame dk before = true /\ sameGame w after /\
     freezeCounter (state after) = (15 - (Z.of_nat k + 1))%Z) /\
  (let w15 := frames ds w in
   frozenFrame d' w15 = false /\
   gameLoop d' w15 =
     updateGame d' (setState (setShouldFreeze false (ticked w15)) w15) /\
   shouldFreeze (state (gameLoop d' w15)) = false).
Proof.
  intros Hm Hg Hr Hlen Hcoin.
  destruct ds as [|d ds]; [discriminate|]. simpl in Hlen.
  specialize (Hcoin d eq_refl).
  destruct (trigger_frame d w Hm Hg Hr Hcoin) as (Hfz & Hsame & Hs1 & Hc1 & Hf1).
  pose proof Hsame as (_ & _ & _ & _ & _ & Hm1 & Hg1 & _).
  rewrite Hm in Hm1. rewrite Hg in Hg1.
  assert (Hrun : forall ds', (length ds' <= 14)%nat ->
            let v := frames ds' (gameLoop d w) in
            sameGame w v /\ shouldFreeze (state v) = true /\
            freezeCounter (state v) = (14 - Z.of_nat (length ds'))%Z /\
            frameCount (state v) =
              (frameCount (state w) + 1 + Z.of_nat (length ds'))%Z).
  { intros ds' Hl.
    destruct (frozen_run ds' (gameLoop d w)) as (Hsm & Hs' & Hc' & Hf');
      try assumption; [lia | |].
    { intros j Hj. rewrite Hf1. Z.quot_rem_to_equations. lia. }
    split; [eapply sameGame_trans; eassumption|].
    split; [assumption|]. split; lia. }
  split.
  - intros k dk Hk before after. subst before after.
    destruct k as [|k].
    + simpl in Hk. injection Hk as <-. change (frames (take 0 (d :: ds)) w) with w.
      split; [assumption|]. split; [assumption|]. lia.
    + simpl in Hk. change (take (S k) (d :: ds)) with (d :: take k ds).
      rewrite frames_cons.
      assert (Hkl : (k < length ds)%nat) by (eapply lookup_lt_Some; eassumption).
      destruct (Hrun (take k ds)) as (Hsm & Hs' & Hc' & Hf');
        [rewrite length_take; lia|].
      rewrite length_take, Nat.min_l in Hc', Hf' by lia.
      pose proof Hsm as (_ & _ & _ & _ & _ & Hm' & Hg' & _).
      rewrite Hm in Hm'. rewrite Hg in Hg'.
      assert (Hnz : Z.rem (frameCount (state (frames (take k ds) (gameLoop d w))) + 1)
                      120 <> 0%Z).
      { rewrite Hf'. Z.quot_rem_to_equations. lia. }
      split; [apply freeze_frame_frozen; try assumption; lia|].
      destruct (freeze_frame dk (frames (take k ds) (gameLoop d w)))
        as (Hsm2 & _ & Hc2 & _); try assumption; [lia|].
      split; [eapply sameGame_trans; eassumption | lia].
  - rewrite frames_cons.
    destruct (Hrun ds) as (Hsm & Hs' & Hc' & Hf'); [lia|].
    pose proof Hsm as (_ & _ & _ & _ & _ & Hm' & Hg' & _).
    rewrite Hm in Hm'. rewrite Hg in Hg'.
    apply thaw_frame; try assumption; [lia|].
    rewrite Hf'. Z.quot_rem_to_equations. lia.
Qed.

Lemma freeze_lasts_15_frames_witness :
  frozenFrame halves
    (frames (repeat halves 15)
       (setState (setFrameCount 119 initialState) (initWorld G4 ∅))) = false /\
  shouldFreeze
    (state (gameLoop halves
              (frames (repeat halves 15)
                 (setState (setFrameCount 119 initialState) (initWorld G4 ∅)))))
  = false.
Proof.
  destruct (freeze_lasts_15_frames
              (setState (setFrameCount 119 initialState) (initWorld G4 ∅))
              (repeat halves 15) halves eq_refl eq_refl eq_refl eq_refl)
    as (_ & H1 & _ & H2).
  - intros d Hd. injection Hd as <-. reflexivity.
  - split; [exact H1 | exact H2].
Defined.

(** C6: on a frame that is not frozen, the obstacles left in the collection
    are exactly the drifted obstacles whose right edge is not below 0, in
    their order; each drifted obstacle whose right edge is below 0 is gone
    and is counted once, and the score grows by exactly 10 for each of
    them.  On any other frame both the collection and the score stay as
    they are, so nothing is removed without being scored and nothing is
    scored without being removed. *)
Theorem offscreen_removed_and_scored (d : Draws) (w : World) :
  let w' := gameLoop d w in
  let moved := map drift (entering d w) in
  (gameOver w = false -> frozenFrame d w = false ->
   obstacles (state w') = List.filter (fun o => negb (offScreen o)) moved /\
   (forall o : Obstacle, In o (obstacles (state w')) -> ~ x o + width o < 0) /\
   (length (obstacles (state w')) + length (List.filter offScreen moved)
    = length (entering d w))%nat /\
   score (state w') =
     (score (state w) + 10 * Z.of_nat (length (List.filter offScreen moved)))%Z)
  /\
  (gameOver w = true \/ frozenFrame d w = true ->
   obstacles (state w') = obstacles (state w) /\
   score (state w') = score (state w)).
Proof.
  intros w' moved. subst w' moved. split.
  - intros Hg Hf.
    destruct (running_fields d w Hg Hf) as (_ & Ho & Hs & _).
    rewrite Ho, Hs. split; [reflexivity|]. split; [|split].
    + intros o Hin. unfold remaining in Hin.
      apply filter_In in Hin as [_ Hkeep].
      apply negb_true_iff, Qltb_ge in Hkeep. now apply Qle_not_lt.
    + apply remaining_cleared_length.
    + reflexivity.
  - intros [Hg | Hf].
    + rewrite gameLoop_over by assumption. split; reflexivity.
    + destruct (gameOver w) eqn:Hg.
      * rewrite gameLoop_over by assumption. split; reflexivity.
      * destruct (frozen_fields d w Hg Hf) as (_ & -> & -> & _).
        split; reflexivity.
Qed.

Lemma offscreen_removed_and_scored_witness :
  obstacles (state (gameLoop halves
    (setState (setObstacles [leaving] initialState) (initWorld G5 ∅)))) = [] /\
  score (state (gameLoop halves
    (setState (setObstacles [leaving] initialState) (initWorld G5 ∅)))) = 10%Z.
Proof.
  destruct (proj1 (offscreen_removed_and_scored halves
              (setState (setObstacles [leaving] initialState) (initWorld G5 ∅)))
              eq_refl eq_refl) as (Ho & _ & _ & Hs).
  split; [exact Ho | exact Hs].
Defined.

(** C7: an event changes the storage only if it is a frame that ends the
    game (the game was running before it and is over after it) whose final
    score is strictly above the stored high score of the active mode; the
    entry of the active mode is then the only one written, with that
    score.  The score of the ref never decreases under frames and key
    events, that is until a restart. *)
Theorem high_score_written_only_on_record
    (m : GameMode) (ls : gmap string string) (w : World) (e : Event) :
  reachable m ls w ->
  let w' := step w e in
  (localStorage w' <> localStorage w ->
   (exists d, e = Frame d) /\ gameOver w = false /\ gameOver w' = true /\
   exists h : Z,
     readHighScore m (localStorage w) = Int h /\
     (h < score (state w'))%Z /\
     localStorage w' =
       <[highScoreKey m := toString (score (state w'))]> (localStorage w) /\
     readHighScore m (localStorage w') = Int (score (state w'))) /\
  (e <> Restart -> (score (state w) <= score (state w'))%Z).
Proof.
  intros Hr w'. subst w'. split; [|apply step_score].
  intros Hchg.
  destruct (step_record w e) as [[Hs _] | [He (Hg & Hg' & h & Hh & Hlt & _ & Hs)]];
    [contradiction|].
  split; [exact He|]. split; [exact Hg|]. split; [exact Hg'|].
  exists h. rewrite <- (reachable_highScore m ls w Hr).
  rewrite (reachable_gameMode m ls w Hr) in Hs.
  split; [exact Hh|]. split; [exact Hlt|]. split; [exact Hs|].
  rewrite Hs. apply readHighScore_written.
Qed.

Lemma high_score_written_only_on_record_witness :
  (score (state (initWorld G5 ∅))
   <= score (state (step (initWorld G5 ∅) (Frame halves))))%Z.
Proof.
  apply (proj2 (high_score_written_only_on_record G5 ∅ (initWorld G5 ∅)
                  (Frame halves) (reach_init G5 ∅))).
  discriminate.
Defined.




(** C9: [handleRestart] puts the initial object back in the ref, so the
    frame counter is 0, the score is 0 (in the ref and on display) and the
    obstacle collection is empty, and the game runs again; the mode, the
    high score held by the component and every entry of the storage, those
    of both modes included, are as before. *)
Theorem handleRestart_resets (w : World) :
  let w' := handleRestart w in
  state w' = initialState /\
  frameCount (state w') = 0%Z /\ score (state w') = 0%Z /\
  scoreState w' = 0%Z /\ obstacles (state w') = [] /\
  gameOver w' = false /\ gameMode w' = gameMode w /\
  highScore w' = highScore w /\
  localStorage w' = localStorage w /\
  (forall m : GameMode,
     localStorage w' !! highScoreKey m = localStorage w !! highScoreKey m).
Proof. simpl. repeat split. Qed.

(** C10: in every reachable state every obstacle has x at most
    800 - speed with a positive speed, hence none has x equal to 800; and
    on a running frame that spawns, the new obstacle closes the collection
    with x = 800 - speed. *)
Theorem no_obstacle_on_right_edge
    (m : GameMode) (ls : gmap string string) (w : World) :
  reachable m ls w ->
  (forall o : Obstacle,
     In o (obstacles (state w)) -> x o <= 800 - speed o /\ ~ x o == 800) /\
  (forall d : Draws,
     gameOver w = false -> frozenFrame d w = false ->
     (spawnRate m <? frameCount (state w) + 1 - lastObstacleFrame (state w))%Z
       = true ->
     exists (os : list Obstacle) (o : Obstacle),
       obstacles (state (gameLoop d w)) = os ++ [o] /\
       o = drift (newObstacle m d) /\ x o == 800 - speed o).
Proof.
  intros Hr. split.
  - intros o Hin. pose proof (reachable_drifted m ls w Hr) as Hall.
    rewrite List.Forall_forall in Hall. destruct (Hall o Hin) as [Hs Hx].
    unfold canvasWidth in Hx. split; [exact Hx | lra].
  - intros d Hg Hf Hspawn.
    destruct (running_fields d w Hg Hf) as (_ & Ho & _).
    exists (remaining (obstacles (state w))), (drift (newObstacle m d)).
    rewrite Ho. unfold entering. rewrite spawnObstacle_obstacles.
    rewrite (reachable_gameMode m ls w Hr). simpl. rewrite Hspawn.
    rewrite remaining_snoc, newObstacle_stays.
    split; [reflexivity|]. split; [reflexivity|].
    unfold canvasWidth. simpl. reflexivity.
Qed.

Lemma no_obstacle_on_right_edge_witness :
  Forall (fun o : Obstacle => ~ x o == 800)
    (obstacles (state (frames (repeat halves 61) (initWorld G5 ∅)))).
Proof.
  assert (Hr : forall n, reachable G5 ∅ (frames (repeat halves n) (initWorld G5 ∅))).
  { induction n as [|n IH]; [apply reach_init|].
    simpl repeat. rewrite repeat_cons, frames_snoc.
    exact (reach_step _ _ _ (Frame halves) IH (ok_frame _ halves_valid)). }
  apply List.Forall_forall. intros o Hin.
  exact (proj2 (proj1 (no_obstacle_on_right_edge G5 ∅ _ (Hr 61%nat)) o Hin)).
Defined.

(** * Further properties of the game loop *)

(** ** Frames are counted, a finished game is final *)

Lemma gameLoop_frameCount (d : Draws) (w : World) :
  gameOver w = false ->
  frameCount (state (gameLoop d w)) = (frameCount (state w) + 1)%Z.
Proof.
  intros Hg. destruct (frozenFrame d w) eqn:Hf.
  - now destruct (frozen_fields d w Hg Hf) as (_ & _ & _ & -> & _).
  - now destruct (running_fields d w Hg Hf) as (_ & _ & _ & -> & _).
Qed.

Lemma gameLoop_still_running (d : Draws) (w : World) :
  gameOver (gameLoop d w) = false -> gameOver w = false.
Proof.
  intros H. destruct (gameOver w) eqn:Hg; [|reflexivity].
  rewrite gameLoop_over in H by assumption. congruence.
Qed.

(** X1: [frameCount] counts the frames of a running game one by one,
    frozen frames included: if the game is not over after a run of frames,
    it was not over before it and the counter has advanced by the number of
    frames; the frame that ends a game is counted as well. *)
Theorem frameCount_counts_frames (ds : list Draws) (w : World) :
  gameOver (frames ds w) = false ->
  gameOver w = false /\
  frameCount (state (frames ds w)) =
    (frameCount (state w) + Z.of_nat (length ds))%Z /\
  (forall d : Draws,
     frameCount (state (frames (ds ++ [d]) w)) =
       (frameCount (state w) + Z.of_nat (length ds) + 1)%Z).
Proof.
  induction ds as [|d ds IH] using rev_ind; intros Hg.
  - change (frames [] w) with w in *. split; [assumption|].
    split; [simpl; lia|]. intros d. change (frames ([] ++ [d]) w) with (gameLoop d w).
    rewrite gameLoop_frameCount by assumption. simpl. lia.
  - rewrite frames_snoc in Hg. pose proof (gameLoop_still_running _ _ Hg) as Hg'.
    destruct (IH Hg') as (Hw & Hfc & Hnext).
    split; [assumption|]. split.
    + rewrite Hnext, length_app. simpl. lia.
    + intros d'. rewrite frames_snoc, gameLoop_frameCount.
      * rewrite Hnext, length_app. simpl. lia.
      * rewrite frames_snoc. exact Hg.
Qed.

Lemma frameCount_counts_frames_witness :
  frameCount (state (frames (repeat halves 130) (initWorld G4 ∅))) = 130%Z.
Proof.
  assert (Hg : gameOver (frames (repeat halves 130) (initWorld G4 ∅)) = false)
    by (vm_compute; reflexivity).
  exact (proj1 (proj2 (frameCount_counts_frames (repeat halves 130)
                         (initWorld G4 ∅) Hg))).
Defined.

Lemma sameButKeys_refl (w : World) : sameButKeys w w.
Proof. unfold sameButKeys. destruct w as [? ? ? ? [] ?]. reflexivity. Qed.

Lemma sameButKeys_trans (w1 w2 w3 : World) :
  sameButKeys w1 w2 -> sameButKeys w2 w3 -> sameButKeys w1 w3.
Proof.
  unfold sameButKeys.
  destruct w1 as [? ? ? ? [] ?], w2 as [? ? ? ? [] ?], w3 as [? ? ? ? [] ?].
  simpl. intros H1 H2. injection H1. injection H2. intros. subst. reflexivity.
Qed.

Lemma sameButKeys_fields (w w' : World) :
  sameButKeys w w' ->
  rocket (state w') = rocket (state w) /\
  obstacles (state w') = obstacles (state w) /\
  score (state w') = score (state w) /\
  frameCount (state w') = frameCount (state w) /\
  scoreState w' = scoreState w /\ highScore w' = highScore w /\
  localStorage w' = localStorage w.
Proof.
  unfold sameButKeys. destruct w as [? ? ? ? [] ?], w' as [? ? ? ? [] ?].
  simpl. intros H. injection H. intros. subst. repeat split.
Qed.

Lemma step_over (w : World) (e : Event) :
  gameOver w = true -> e <> Restart ->
  gameOver (step w e) = true /\ sameButKeys w (step w e).
Proof.
  intros Hg He. destruct e as [k|k|d|]; simpl.
  - split; [assumption|]. unfold sameButKeys. destruct w as [? ? ? ? [] ?].
    reflexivity.
  - split; [assumption|]. unfold sameButKeys. destruct w as [? ? ? ? [] ?].
    reflexivity.
  - rewrite gameLoop_over by assumption. split; [assumption|].
    apply sameButKeys_refl.
  - congruence.
Qed.

(** X2: game over is final until a restart: whatever frames and key events
    follow, the game stays over and nothing but the record of held keys
    changes; rocket, obstacles, score, frame counter, high score and
    storage are as the collision left them. *)
Theorem game_over_is_final (es : list Event) (w : World) :
  gameOver w = true -> Forall (fun e => e <> Restart) es ->
  gameOver (run es w) = true /\ sameButKeys w (run es w) /\
  rocket (state (run es w)) = rocket (state w) /\
  obstacles (state (run es w)) = obstacles (state w) /\
  score (state (run es w)) = score (state w) /\
  frameCount (state (run es w)) = frameCount (state w) /\
  highScore (run es w) = highScore w /\
  localStorage (run es w) = localStorage w.
Proof.
  intros Hg Hes.
  assert (H : gameOver (run es w) = true /\ sameButKeys w (run es w)).
  { revert w Hg. induction Hes as [|e es He _ IH]; intros w Hg.
    - split; [assumption | apply sameButKeys_refl].
    - change (run (e :: es) w) with (run es (step w e)).
      destruct (step_over w e Hg He) as [Hg1 Hs1].
      destruct (IH (step w e) Hg1) as [Hg2 Hs2].
      split; [assumption|]. eapply sameButKeys_trans; eassumption. }
  destruct H as [Hg' Hs]. split; [assumption|]. split; [assumption|].
  destruct (sameButKeys_fields _ _ Hs) as (? & ? & ? & ? & _ & ? & ?).
  repeat split; assumption.
Qed.

(** ** Bookkeeping of a running frame *)

Lemma spawnObstacle_clock (m : GameMode) (d : Draws) (st : GameState) :
  lagFrames (spawnObstacle m d st) = lagFrames st /\
  lastObstacleFrame (spawnObstacle m d st) =
    if (spawnRate m <? frameCount st - lastObstacleFrame st)%Z
    then frameCount st else lastObstacleFrame st.
Proof. unfold spawnObstacle. now destruct (_ <? _)%Z. Qed.

Lemma onCollision_scoreState (w : World) :
  scoreState (onCollision w) = scoreState w.
Proof. unfold onCollision. now destruct (exceeds _ _). Qed.

(** What the update leaves of the counters of the ref it is given. *)
Lemma updateGame_bookkeeping (d : Draws) (v : World) :
  let st' := state (updateGame d v) in
  lagFrames st' = lagFrames (state v) /\
  shouldFreeze st' = shouldFreeze (state v) /\
  freezeCounter st' = freezeCounter (state v) /\
  frameCount st' = frameCount (state v) /\
  lastObstacleFrame st' =
    if (spawnRate (gameMode v)
        <? frameCount (state v) - lastObstacleFrame (state v))%Z
    then frameCount (state v) else lastObstacleFrame (state v).
Proof.
  intros st'. subst st'. rewrite updateGame_state.
  cbn [lagFrames shouldFreeze freezeCounter frameCount lastObstacleFrame
       setScore setObstacles].
  set (st1 := setRocket _ (state v)).
  destruct (spawnObstacle_fields (gameMode v) d st1) as (_ & _ & _ & -> & -> & ->).
  destruct (spawnObstacle_clock (gameMode v) d st1) as (-> & ->).
  subst st1. simpl. repeat split.
Qed.

Lemma updateGame_scoreState (d : Draws) (v : World) :
  scoreState v = score (state v) ->
  scoreState (updateGame d v) = score (state (updateGame d v)).
Proof.
  intros Hs. rewrite updateGame_state. unfold updateGame.
  rewrite moveObstacles_spec.
  set (st1 := setRocket _ (state v)).
  destruct (spawnObstacle_fields (gameMode v) d st1) as (_ & _ & Hsc & _).
  assert (E : forall w3, scoreState
            (if existsb (fun obstacle : Obstacle =>
                           checkCollision (rocket (state w3)) obstacle)
                  (remaining (obstacles (spawnObstacle (gameMode v) d st1)))
             then onCollision w3 else w3) = scoreState w3).
  { intros w3. destruct (existsb _ _); [apply onCollision_scoreState|reflexivity]. }
  rewrite E. cbn [scoreState setScoreState score setScore].
  unfold reward.
  destruct (cleared (obstacles (spawnObstacle (gameMode v) d st1))) as [|o l];
    [|reflexivity].
  rewrite Hsc. subst st1. simpl. lia.
Qed.

(** The spawn clock after a running frame. *)
Lemma running_clock (d : Draws) (w : World) :
  gameOver w = false -> frozenFrame d w = false ->
  lastObstacleFrame (state (gameLoop d w)) =
    if (spawnRate (gameMode w)
        <? frameCount (state w) + 1 - lastObstacleFrame (state w))%Z
    then (frameCount (state w) + 1)%Z else lastObstacleFrame (state w).
Proof.
  intros Hg Hf. rewrite gameLoop_running by assumption.
  destruct (updateGame_bookkeeping d (setState (entry d w) w))
    as (_ & _ & _ & _ & ->).
  cbn [gameMode state setState].
  destruct (entry_fields d w) as (_ & _ & _ & _ & -> & ->). reflexivity.
Qed.

(** ** The display follows the score *)

Lemma step_scoreState (w : World) (e : Event) :
  scoreState w = score (state w) ->
  scoreState (step w e) = score (state (step w e)).
Proof.
  intros Hs. destruct e as [k|k|d|]; simpl; try assumption; [|reflexivity].
  destruct (gameOver w) eqn:Hg; [now rewrite gameLoop_over|].
  destruct (frozenFrame d w) eqn:Hf.
  - rewrite gameLoop_frozen by assumption. simpl.
    destruct (lagTrigger_fields d (ticked w)) as (_ & _ & _ & -> & _).
    exact Hs.
  - rewrite gameLoop_running by assumption.
    apply updateGame_scoreState. simpl.
    destruct (entry_fields d w) as (_ & _ & _ & -> & _). exact Hs.
Qed.

Lemma step_score_tens (w : World) (e : Event) :
  (exists k, (0 <= k)%Z /\ score (state w) = (10 * k)%Z) ->
  exists k, (0 <= k)%Z /\ score (state (step w e)) = (10 * k)%Z.
Proof.
  intros (k & Hk & Hs). destruct e as [key|key|d|]; simpl.
  - now exists k.
  - now exists k.
  - destruct (gameOver w) eqn:Hg; [rewrite gameLoop_over by assumption; now exists k|].
    destruct (frozenFrame d w) eqn:Hf.
    + destruct (frozen_fields d w Hg Hf) as (_ & _ & -> & _). now exists k.
    + destruct (running_fields d w Hg Hf) as (_ & _ & -> & _).
      exists (k + Z.of_nat (length (cleared (entering d w))))%Z.
      unfold reward. split; lia.
  - exists 0%Z. split; [lia | reflexivity].
Qed.

Lemma reachable_scoreState
    (m : GameMode) (ls : gmap string string) (w : World) :
  reachable m ls w -> scoreState w = score (state w).
Proof.
  induction 1 as [|w e _ IH _]; [reflexivity | now apply step_scoreState].
Qed.

(** X3: the score shown by the page is, after every event, the score of
    the game state, and that score is a non-negative multiple of 10. *)
Theorem score_shown_is_score
    (m : GameMode) (ls : gmap string string) (w : World) :
  reachable m ls w ->
  scoreState w = score (state w) /\
  exists k : Z, (0 <= k)%Z /\ score (state w) = (10 * k)%Z.
Proof.
  intros Hr. split; [now apply (reachable_scoreState m ls)|].
  induction Hr as [|w e _ IH _].
  - exists 0%Z. split; [lia | reflexivity].
  - now apply step_score_tens.
Qed.

Lemma reach_frames (m : GameMode) (ls : gmap string string) (n : nat) :
  reachable m ls (frames (repeat halves n) (initWorld m ls)).
Proof.
  induction n as [|n IH]; [apply reach_init|].
  simpl repeat. rewrite repeat_cons, frames_snoc.
  exact (reach_step _ _ _ (Frame halves) IH (ok_frame _ halves_valid)).
Defined.

Lemma score_shown_is_score_witness :
  scoreState (frames (repeat halves 300) (initWorld G5 ∅)) =
  score (state (frames (repeat halves 300) (initWorld G5 ∅))).
Proof.
  exact (proj1 (score_shown_is_score G5 ∅ _ (reach_frames G5 ∅ 300))).
Defined.

(** ** Obstacles keep their shape and stay on the field *)

Lemma obstacleSpeed_pos (m : GameMode) : 0 < obstacleSpeed m.
Proof. destruct m; reflexivity. Qed.

Lemma obstacleSize_pos (t : ObstacleType) : 0 < obstacleSize t.
Proof. destruct t; reflexivity. Qed.

(** A drifted obstacle that the loop keeps is on the field, if it had the
    spawner's shape and was not beyond the right edge. *)
Lemma drift_onField (m : GameMode) (o : Obstacle) :
  width o = obstacleSize (type o) -> height o = obstacleSize (type o) ->
  speed o = obstacleSpeed m ->
  0 <= y o -> y o < canvasHeight - height o -> x o <= canvasWidth ->
  offScreen (drift o) = false -> onField m (drift o).
Proof.
  intros Hw Hh Hs Hy0 Hy1 Hx Hoff. apply Qltb_ge in Hoff.
  unfold onField, drift in *. simpl in *.
  repeat split; try assumption. lra.
Qed.

Lemma newObstacle_shape (m : GameMode) (d : Draws) :
  unitDraw (rY d) ->
  let o := newObstacle m d in
  width o = obstacleSize (type o) /\ height o = obstacleSize (type o) /\
  speed o = obstacleSpeed m /\
  0 <= y o /\ y o < canvasHeight - height o /\ x o <= canvasWidth.
Proof.
  intros (H0 & H1 & Hd). unfold newObstacle, canvasHeight, canvasWidth. simpl.
  destruct (Qltb 0.5 (rType d)); simpl;
    match goal with
    | |- context [round64 (rY d * ?B)] =>
        destruct (round64_fraction (rY d) B Hd H0 H1) as [R0 R1];
        [lra | lra | repeat split; try reflexivity; lra]
    end.
Qed.

Lemma remaining_onField (m : GameMode) (d : Draws) (w : World) :
  gameMode w = m -> unitDraw (rY d) ->
  Forall (onField m) (obstacles (state w)) ->
  Forall (onField m) (remaining (entering d w)).
Proof.
  intros Hm Hd Hall. unfold remaining. rewrite List.Forall_forall in *.
  intros o' Ho'. apply filter_In in Ho' as [Ho' Hkeep].
  apply negb_true_iff in Hkeep.
  apply in_map_iff in Ho' as (o & <- & Ho).
  assert (Hcase : In o (obstacles (state w)) \/ o = newObstacle m d).
  { destruct (entering_cases d w) as [E | E]; rewrite E in Ho.
    - now left.
    - apply in_app_or in Ho as [Ho | [<- | []]]; [now left | right; congruence]. }
  destruct Hcase as [Hold | ->].
  - destruct (Hall o Hold) as (Hw & Hh & Hs & Hy0 & Hy1 & _ & Hx).
    apply drift_onField; try assumption.
    pose proof (obstacleSpeed_pos m). rewrite Hs in Hx. lra.
  - destruct (newObstacle_shape m d Hd) as (Hw & Hh & Hs & Hy0 & Hy1 & Hx).
    now apply drift_onField.
Qed.

(** X4: every obstacle of a reachable state is a square of side 30
    (meteor) or 40 (satellite) moving at the speed of the mode, lies
    entirely between the top and the bottom of the field, and has its right
    edge at or right of x = 0 and its left edge at most at 800 - speed. *)
Theorem obstacles_on_field
    (m : GameMode) (ls : gmap string string) (w : World) :
  reachable m ls w ->
  forall o : Obstacle, In o (obstacles (state w)) ->
    (type o = meteor /\ width o = 30 /\ height o = 30 \/
     type o = satellite /\ width o = 40 /\ height o = 40) /\
    speed o = obstacleSpeed m /\
    0 <= y o /\ y o + height o < 600 /\
    0 <= x o + width o /\ x o <= 800 - speed o.
Proof.
  intros Hr.
  assert (Hall : Forall (onField m) (obstacles (state w))).
  { induction Hr as [|w e Hr IH He]; [constructor|].
    destruct e as [k|k|d|]; simpl; try exact IH; [|constructor].
    destruct (gameOver w) eqn:Hg; [now rewrite gameLoop_over|].
    destruct (frozenFrame d w) eqn:Hf.
    - now destruct (frozen_fields d w Hg Hf) as (_ & -> & _).
    - destruct (running_fields d w Hg Hf) as (_ & -> & _).
      inversion He as [| |d' (_ & _ & Hy)|]; subst.
      apply remaining_onField; try assumption.
      now apply (reachable_gameMode m ls). }
  rewrite List.Forall_forall in Hall. intros o Ho.
  destruct (Hall o Ho) as (Hw & Hh & Hs & Hy0 & Hy1 & Hx0 & Hx1).
  unfold canvasHeight, canvasWidth in *.
  split; [|repeat split; try assumption; lra].
  rewrite Hw, Hh. destruct (type o); [left | right]; repeat split.
Qed.

Lemma obstacles_on_field_witness :
  Forall (fun o : Obstacle => 0 <= y o /\ y o + height o < 600)
    (obstacles (state (frames (repeat halves 200) (initWorld G5 ∅)))).
Proof.
  apply List.Forall_forall. intros o Ho.
  destruct (obstacles_on_field G5 ∅ _ (reach_frames G5 ∅ 200) o Ho)
    as (_ & _ & H0 & H1 & _).
  split; [exact H0 | exact H1].
Defined.

(** ** The freeze bookkeeping *)

Lemma gameLoop_freezeOk (m : GameMode) (d : Draws) (w : World) :
  gameMode w = m -> freezeOk m (state w) -> freezeOk m (state (gameLoop d w)).
Proof.
  intros Hm Hok.
  unfold gameLoop. destruct (gameOver w); [exact Hok|].
  destruct Hok as (Hl & Hf0 & Hc & Hon & H5).
  rewrite Hm. destruct m.
  - assert (Hupd : forall st1 : GameState,
              lagFrames st1 = 0%Z -> (0 <= frameCount st1)%Z ->
              freezeCounter st1 = 0%Z ->
              freezeOk G4 (state (updateGame d
                 (setState (setShouldFreeze false st1) w)))).
    { intros st1 H1 H2 H3.
      destruct (updateGame_bookkeeping d (setState (setShouldFreeze false st1) w))
        as (E1 & E2 & E3 & E4 & _).
      simpl in E1, E2, E3, E4. unfold freezeOk. rewrite E1, E2, E3, E4, H3.
      repeat split; try assumption; try lia; discriminate. }
    unfold lagTrigger. simpl.
    destruct (Z.eqb_spec (Z.rem (frameCount (state w) + 1) 120) 0) as [Hz|Hnz];
      destruct (Qltb 0.5 (rFreeze d)); simpl.
    + unfold freezeOk. simpl. repeat split; try assumption; try lia; discriminate.
    + unfold freezing. simpl.
      destruct (shouldFreeze (state w)) eqn:Hs;
        destruct (Z.ltb_spec 0 (freezeCounter (state w))) as [Hpos|Hle]; simpl.
      * destruct (Hon Hpos) as [_ Hrem]. exfalso.
        Z.quot_rem_to_equations. lia.
      * apply Hupd; simpl; lia.
      * destruct (Hon Hpos) as [Hs' _]. congruence.
      * apply Hupd; simpl; lia.
    + unfold freezing. simpl.
      destruct (shouldFreeze (state w)) eqn:Hs;
        destruct (Z.ltb_spec 0 (freezeCounter (state w))) as [Hpos|Hle]; simpl.
      * destruct (Hon Hpos) as [_ Hrem]. unfold freezeOk. simpl.
        repeat split; try assumption; try lia; try discriminate.
        Z.quot_rem_to_equations. lia.
      * apply Hupd; simpl; lia.
      * destruct (Hon Hpos) as [Hs' _]. congruence.
      * apply Hupd; simpl; lia.
    + unfold freezing. simpl.
      destruct (shouldFreeze (state w)) eqn:Hs;
        destruct (Z.ltb_spec 0 (freezeCounter (state w))) as [Hpos|Hle]; simpl.
      * destruct (Hon Hpos) as [_ Hrem]. unfold freezeOk. simpl.
        repeat split; try assumption; try lia; try discriminate.
        Z.quot_rem_to_equations. lia.
      * apply Hupd; simpl; lia.
      * destruct (Hon Hpos) as [Hs' _]. congruence.
      * apply Hupd; simpl; lia.
  - destruct (H5 eq_refl) as [Hs Hz].
    destruct (updateGame_bookkeeping d
                (setState (setFrameCount (frameCount (state w) + 1) (state w)) w))
      as (E1 & E2 & E3 & E4 & _).
    simpl in E1, E2, E3, E4. unfold freezeOk. rewrite E1, E2, E3, E4, Hz.
    repeat split; try assumption; try lia.
Qed.

Lemma reachable_freezeOk (m : GameMode) (ls : gmap string string) (w : World) :
  reachable m ls w -> freezeOk m (state w).
Proof.
  induction 1 as [|w e Hr IH _].
  - unfold freezeOk. simpl. repeat split; try lia; try reflexivity.
  - destruct e as [k|k|d|]; simpl; try exact IH.
    + apply gameLoop_freezeOk; [now apply (reachable_gameMode m ls) | exact IH].
    + unfold freezeOk. simpl. repeat split; try lia; try reflexivity.
Qed.

(** X5: the freeze bookkeeping of a reachable state: [lagFrames] is never
    used and stays 0, the frame counter is not negative, the freeze counter
    lies between 0 and 14 at the end of a frame and is positive only while
    [shouldFreeze] is set, and a 5G session never sets either. *)
Theorem freeze_bookkeeping
    (m : GameMode) (ls : gmap string string) (w : World) :
  reachable m ls w ->
  lagFrames (state w) = 0%Z /\ (0 <= frameCount (state w))%Z /\
  (0 <= freezeCounter (state w) <= 14)%Z /\
  ((0 < freezeCounter (state w))%Z -> shouldFreeze (state w) = true) /\
  (m = G5 -> shouldFreeze (state w) = false /\ freezeCounter (state w) = 0%Z).
Proof.
  intros Hr. destruct (reachable_freezeOk m ls w Hr) as (Hl & Hf & Hc & Hon & H5).
  repeat split; try assumption; try lia; try (now apply H5).
  intros Hpos. now apply Hon.
Qed.

Lemma freeze_bookkeeping_witness :
  (0 <= freezeCounter (state (frames (repeat halves 125) (initWorld G4 ∅)))
   <= 14)%Z.
Proof.
  exact (proj1 (proj2 (proj2 (freeze_bookkeeping G4 ∅ _ (reach_frames G4 ∅ 125))))).
Defined.

(** X6: a frame of a running game is frozen only in 4G mode and only when
    its number, modulo 120, is between 0 and 14: on 0 the coin of that frame
    was above 0.5, on 1 to 14 an earlier freeze is still counting down.  So
    at least 105 frames of every 120 run the game. *)
Theorem freeze_only_at_period_start
    (m : GameMode) (ls : gmap string string) (w : World) (d : Draws) :
  reachable m ls w -> gameOver w = false -> frozenFrame d w = true ->
  m = G4 /\
  (0 <= Z.rem (frameCount (state w) + 1) 120 <= 14)%Z /\
  (Z.rem (frameCount (state w) + 1) 120 = 0%Z -> 0.5 < rFreeze d) /\
  (Z.rem (frameCount (state w) + 1) 120 <> 0%Z ->
   shouldFreeze (state w) = true /\
   Z.rem (frameCount (state w) + 1) 120 = (15 - freezeCounter (state w))%Z).
Proof.
  intros Hr Hg Hf.
  destruct (reachable_freezeOk m ls w Hr) as (_ & Hf0 & Hc & Hon & _).
  pose proof (reachable_gameMode m ls w Hr) as Hm.
  unfold frozenFrame in Hf. rewrite Hm in Hf. destruct m; [|discriminate].
  split; [reflexivity|].
  unfold lagTrigger in Hf. simpl in Hf.
  destruct (Z.eqb_spec (Z.rem (frameCount (state w) + 1) 120) 0) as [Hz|Hnz].
  - rewrite Hz. split; [lia|]. split; [|congruence]. intros _.
    destruct (Qltb 0.5 (rFreeze d)) eqn:Hcoin; [now apply Qltb_lt|].
    simpl in Hf. unfold freezing in Hf. apply andb_true_iff in Hf as [Hs Hpos].
    apply Z.ltb_lt in Hpos. simpl in Hs, Hpos. destruct (Hon Hpos) as [_ Hrem].
    exfalso. Z.quot_rem_to_equations. lia.
  - simpl in Hf. unfold freezing in Hf. apply andb_true_iff in Hf as [Hs Hpos].
    apply Z.ltb_lt in Hpos. simpl in Hs, Hpos. destruct (Hon Hpos) as [_ Hrem].
    assert (Hr1 : Z.rem (frameCount (state w) + 1) 120
                  = (15 - freezeCounter (state w))%Z).
    { Z.quot_rem_to_equations. lia. }
    split; [rewrite Hr1; lia|]. split; [contradiction|]. intros _.
    split; assumption.
Qed.

Lemma freeze_only_at_period_start_witness :
  (0 <= Z.rem (frameCount (state (frames (repeat halves 125) (initWorld G4 ∅))) + 1)
          120 <= 14)%Z.
Proof.
  assert (Hg : gameOver (frames (repeat halves 125) (initWorld G4 ∅)) = false)
    by (vm_compute; reflexivity).
  assert (Hf : frozenFrame halves (frames (repeat halves 125) (initWorld G4 ∅))
               = true) by (vm_compute; reflexivity).
  exact (proj1 (proj2 (freeze_only_at_period_start G4 ∅ _ halves
                         (reach_frames G4 ∅ 125) Hg Hf))).
Defined.

(** ** The spawn clock of 5G *)

Lemma gameLoop_ledger (d : Draws) (w : World) (k : Z) :
  gameMode w = G5 -> spawnLedger k (state w) ->
  exists k', spawnLedger k' (state (gameLoop d w)).
Proof.
  intros Hm Hk. destruct (gameOver w) eqn:Hg.
  { rewrite gameLoop_over by assumption. now exists k. }
  assert (Hf : frozenFrame d w = false) by (unfold frozenFrame; now rewrite Hm).
  destruct Hk as (Hk0 & Hlast & Hgap & Hsum).
  destruct (running_fields d w Hg Hf) as (_ & Ho & Hs & Hfc & _).
  pose proof (running_clock d w Hg Hf) as Hl.
  pose proof (remaining_cleared_length (entering d w)) as Hlen.
  assert (Hent : entering d w =
            if (spawnRate G5 <? frameCount (state w) + 1
                                - lastObstacleFrame (state w))%Z
            then obstacles (state w) ++ [newObstacle G5 d]
            else obstacles (state w)).
  { unfold entering. rewrite spawnObstacle_obstacles, Hm. reflexivity. }
  rewrite Hm in Hl. simpl spawnRate in *.
  destruct (Z.ltb_spec 60 (frameCount (state w) + 1 - lastObstacleFrame (state w)))
    as [Hspawn|Hwait].
  - exists (k + 1)%Z. unfold spawnLedger. rewrite Ho, Hs, Hfc, Hl.
    rewrite Hent. rewrite Hent, length_app in Hlen. simpl in Hlen.
    unfold reward. repeat split; lia.
  - exists k. unfold spawnLedger. rewrite Ho, Hs, Hfc, Hl.
    rewrite Hent. rewrite Hent in Hlen. unfold reward. repeat split; lia.
Qed.

Lemma reachable_ledger (ls : gmap string string) (w : World) :
  reachable G5 ls w -> exists k, spawnLedger k (state w).
Proof.
  induction 1 as [|w e Hr [k IH] _].
  - exists 0%Z. unfold spawnLedger. simpl. repeat split; lia.
  - destruct e as [key|key|d|]; simpl.
    + now exists k.
    + now exists k.
    + eapply gameLoop_ledger; [now apply (reachable_gameMode G5 ls) | exact IH].
    + exists 0%Z. unfold spawnLedger. simpl. repeat split; lia.
Qed.

(** X7: in a 5G session an obstacle is spawned on every 61st frame since
    the start or the last restart (frames 61, 122, ...), and every obstacle
    spawned is either on the field or counted in the score: the last spawn
    was on frame 61 * (frameCount / 61), and the score plus 10 per obstacle
    on the field is 10 * (frameCount / 61). *)
Theorem spawn_every_61_frames_5G (ls : gmap string string) (w : World) :
  reachable G5 ls w ->
  lastObstacleFrame (state w) = (61 * (frameCount (state w) / 61))%Z /\
  (score (state w) + 10 * Z.of_nat (length (obstacles (state w)))
   = 10 * (frameCount (state w) / 61))%Z.
Proof.
  intros Hr. destruct (reachable_ledger ls w Hr) as (k & Hk0 & Hlast & Hgap & Hsum).
  assert (Hk : (frameCount (state w) / 61 = k)%Z).
  { symmetry. apply Z.div_unique with (r := (frameCount (state w) - 61 * k)%Z); lia. }
  rewrite Hk. split; assumption.
Qed.

Lemma spawn_every_61_frames_5G_witness :
  lastObstacleFrame (state (frames (repeat halves 130) (initWorld G5 ∅)))
  = (61 * (frameCount (state (frames (repeat halves 130) (initWorld G5 ∅))) / 61))%Z.
Proof.
  exact (proj1 (spawn_every_61_frames_5G ∅ _ (reach_frames G5 ∅ 130))).
Defined.

(** ** How a game ends *)

(** The outcome of the update for the React state and the storage. *)
Lemma updateGame_outcome (d : Draws) (v : World) :
  gameOver v = false ->
  let v' := updateGame d v in
  gameOver v' =
    existsb (fun o : Obstacle => checkCollision (rocket (state v')) o)
      (obstacles (state v')) /\
  (gameOver v' = true /\ exceeds (score (state v')) (highScore v) = true /\
   highScore v' = Int (score (state v')) /\
   localStorage v' =
     <[highScoreKey (gameMode v) := toString (score (state v'))]>
       (localStorage v)
   \/
   (gameOver v' = false \/ exceeds (score (state v')) (highScore v) = false) /\
   highScore v' = highScore v /\ localStorage v' = localStorage v).
Proof.
  intros Hg v'. subst v'. unfold updateGame. rewrite moveObstacles_spec.
  set (st2 := spawnObstacle _ _ _). set (w3 := setScoreState _ _).
  change (rocket (state w3)) with (rocket st2).
  destruct (existsb (fun obstacle : Obstacle => checkCollision (rocket st2) obstacle)
              (remaining (obstacles st2))) eqn:Hhit.
  - rewrite onCollision_state. subst w3. cbn [state setState setScoreState].
    cbn [rocket obstacles score setScore setObstacles].
    unfold onCollision. cbn [state highScore setGameOver gameMode score
      setState setScoreState setScore].
    destruct (exceeds (score st2 + reward (obstacles st2)) (highScore v)) eqn:Hex;
      simpl; (split; [now rewrite Hhit|]).
    + left. repeat split.
    + right. split; [now right | split; reflexivity].
  - subst w3. cbn [state setState setScoreState gameOver highScore localStorage].
    cbn [rocket obstacles score setScore setObstacles].
    rewrite Hhit. split; [assumption|].
    right. split; [now left | split; reflexivity].
Qed.

Lemma frozen_world (d : Draws) (w : World) :
  gameOver w = false -> frozenFrame d w = true ->
  gameOver (gameLoop d w) = false /\ highScore (gameLoop d w) = highScore w /\
  localStorage (gameLoop d w) = localStorage w.
Proof.
  intros Hg Hf. rewrite gameLoop_frozen by assumption. simpl. now rewrite Hg.
Qed.

(** X8: the game is over exactly when the rocket overlaps an obstacle: in
    a reachable state with the game running no obstacle overlaps the rocket,
    and in one with the game over some obstacle does. *)
Theorem over_iff_rocket_hit
    (m : GameMode) (ls : gmap string string) (w : World) :
  reachable m ls w ->
  gameOver w =
    existsb (fun o : Obstacle => checkCollision (rocket (state w)) o)
      (obstacles (state w)).
Proof.
  induction 1 as [|w e _ IH _]; [reflexivity|].
  destruct e as [k|k|d|]; simpl; try exact IH; [|reflexivity].
  destruct (gameOver w) eqn:Hg; [now rewrite gameLoop_over, Hg|].
  destruct (frozenFrame d w) eqn:Hf.
  - destruct (frozen_world d w Hg Hf) as (-> & _).
    destruct (frozen_fields d w Hg Hf) as (-> & -> & _). exact IH.
  - rewrite gameLoop_running by assumption.
    apply (updateGame_outcome d (setState (entry d w) w) Hg).
Qed.

Lemma over_iff_rocket_hit_witness :
  gameOver (frames (repeat halves 500) (initWorld G5 ∅)) =
  existsb (fun o : Obstacle =>
             checkCollision
               (rocket (state (frames (repeat halves 500) (initWorld G5 ∅)))) o)
    (obstacles (state (frames (repeat halves 500) (initWorld G5 ∅)))).
Proof.
  exact (over_iff_rocket_hit G5 ∅ _ (reach_frames G5 ∅ 500)).
Defined.

Lemma game_end_record
    (m : GameMode) (ls : gmap string string) (w : World) (d : Draws) (h : Z) :
  reachable m ls w -> gameOver w = false ->
  gameOver (gameLoop d w) = true -> highScore w = Int h ->
  let w' := gameLoop d w in
  ((h < score (state w'))%Z ->
   localStorage w' =
     <[highScoreKey m := toString (score (state w'))]> (localStorage w) /\
   highScore w' = Int (score (state w'))) /\
  ((score (state w') <= h)%Z ->
   localStorage w' = localStorage w /\ highScore w' = Int h).
Proof.
  intros Hr Hg Hover Hh w'. subst w'.
  pose proof (reachable_gameMode m ls w Hr) as Hm.
  destruct (frozenFrame d w) eqn:Hf.
  { destruct (frozen_world d w Hg Hf) as (Hno & _). congruence. }
  rewrite gameLoop_running in * by assumption.
  destruct (updateGame_outcome d (setState (entry d w) w) Hg)
    as (_ & [(_ & Hex & Hhs & Hst) | ([Hno | Hex] & Hhs & Hst)]);
    cbn [highScore gameMode localStorage setState] in *;
    rewrite ?Hh, ?Hm in *; try simpl in Hex.
  - apply Z.ltb_lt in Hex. split; [|lia]. intros _.
    split; [exact Hst | exact Hhs].
  - congruence.
  - apply Z.ltb_ge in Hex. split; [lia|]. intros _. split; assumption.
Qed.

(** X9: when a frame ends the game, the final score is compared with the
    high score the component holds: if it is strictly above, the score is
    stored under the key of the active mode, becomes the held high score,
    and is the high score a session mounted afterwards starts with; if it
    is not, storage and high score stay as they are. *)
Theorem record_stored_when_beaten
    (m : GameMode) (ls : gmap string string) (w : World) (d : Draws) (h : Z) :
  reachable m ls w -> gameOver w = false ->
  gameOver (gameLoop d w) = true -> highScore w = Int h ->
  let w' := gameLoop d w in
  ((h < score (state w'))%Z ->
   localStorage w' =
     <[highScoreKey m := toString (score (state w'))]> (localStorage w) /\
   highScore w' = Int (score (state w')) /\
   highScore (initWorld m (localStorage w')) = Int (score (state w'))) /\
  ((score (state w') <= h)%Z ->
   localStorage w' = localStorage w /\ highScore w' = Int h).
Proof.
  intros Hr Hg Hover Hh w'. subst w'.
  destruct (game_end_record m ls w d h Hr Hg Hover Hh) as [Hwin Hkeep].
  split; [|exact Hkeep].
  intros Hlt. destruct (Hwin Hlt) as [Hst Hhs].
  split; [exact Hst|]. split; [exact Hhs|].
  unfold initWorld. cbn [highScore]. rewrite Hst.
  apply readHighScore_written.
Qed.

Lemma record_stored_when_beaten_witness :
  localStorage (gameLoop halves (frames (repeat halves 225) (initWorld G5 ∅)))
  = localStorage (frames (repeat halves 225) (initWorld G5 ∅)).
Proof.
  assert (Hg : gameOver (frames (repeat halves 225) (initWorld G5 ∅)) = false)
    by (vm_compute; reflexivity).
  assert (Ho : gameOver (gameLoop halves
                 (frames (repeat halves 225) (initWorld G5 ∅))) = true)
    by (vm_compute; reflexivity).
  assert (Hh : highScore (frames (repeat halves 225) (initWorld G5 ∅)) = Int 0)
    by (vm_compute; reflexivity).
  assert (Hs : (score (state (gameLoop halves
                  (frames (repeat halves 225) (initWorld G5 ∅)))) <= 0)%Z)
    by (vm_compute; discriminate).
  exact (proj1 (proj2 (record_stored_when_beaten G5 ∅ _ halves 0
                         (reach_frames G5 ∅ 225) Hg Ho Hh) Hs)).
Defined.

(** ** The stored high scores *)

(** X10: a stored entry that [parseInt] cannot read blocks the high score
    of its mode for good: in a session started over such a storage the held
    high score stays [NaN] and the storage is never written, whatever the
    scores of the games played. *)
Theorem unreadable_entry_blocks_record
    (m : GameMode) (ls : gmap string string) (w : World) :
  reachable m ls w -> readHighScore m ls = NaN ->
  highScore w = NaN /\ localStorage w = ls.
Proof.
  intros Hr Hnan. induction Hr as [|w e _ [IHh IHs] _]; [now split|].
  destruct (step_record w e) as [[Hs Hh] | [_ (_ & _ & h & Hh & _)]].
  - split; congruence.
  - congruence.
Qed.

Lemma unreadable_entry_blocks_record_witness :
  localStorage
    (frames (repeat halves 226)
       (initWorld G5 {[ "highScore-5G"%string := "abc"%string ]}))
  = {[ "highScore-5G"%string := "abc"%string ]}.
Proof.
  assert (Hn : readHighScore G5 {[ "highScore-5G"%string := "abc"%string ]}
               = NaN) by (vm_compute; reflexivity).
  exact (proj2 (unreadable_entry_blocks_record G5
                  {[ "highScore-5G"%string := "abc"%string ]} _
                  (reach_frames G5 _ 226) Hn)).
Defined.

Lemma highScoreKey_inj (m m' : GameMode) :
  highScoreKey m = highScoreKey m' -> m = m'.
Proof. destruct m, m'; (reflexivity || discriminate). Qed.

Lemma step_other_keys (w : World) (e : Event) (k : string) :
  k <> highScoreKey (gameMode w) ->
  localStorage (step w e) !! k = localStorage w !! k.
Proof.
  intros Hk.
  destruct (step_record w e) as [[Hs _] | [_ (_ & _ & h & _ & _ & _ & Hs)]];
    rewrite Hs; [reflexivity|].
  now rewrite lookup_insert_ne by congruence.
Qed.

(** X11: a session only ever writes the storage entry of its own mode:
    after any sequence of key events, frames and restarts every other
    entry, the high score of the other mode among them, is what it was. *)
Theorem other_entries_untouched (es : list Event) (w : World) :
  (forall k : string,
     k <> highScoreKey (gameMode w) ->
     localStorage (run es w) !! k = localStorage w !! k) /\
  (forall m' : GameMode,
     m' <> gameMode w ->
     readHighScore m' (localStorage (run es w))
     = readHighScore m' (localStorage w)).
Proof.
  assert (H : forall k : string,
            k <> highScoreKey (gameMode w) ->
            localStorage (run es w) !! k = localStorage w !! k).
  { revert w. induction es as [|e es IH]; intros w k Hk; [reflexivity|].
    change (run (e :: es) w) with (run es (step w e)).
    rewrite IH by (now rewrite step_gameMode).
    now apply step_other_keys. }
  split; [exact H|].
  intros m' Hm'. unfold readHighScore. rewrite H; [reflexivity|].
  intros E. apply highScoreKey_inj in E. contradiction.
Qed.

Lemma other_entries_untouched_witness :
  readHighScore G4
    (localStorage (run [Frame halves; Restart; KeyDown "w"; Frame halves]
       (initWorld G5 {[ "highScore-4G"%string := "70"%string ]})))
  = Int 70.
Proof.
  rewrite (proj2 (other_entries_untouched
                    [Frame halves; Restart; KeyDown "w"; Frame halves]
                    (initWorld G5 {[ "highScore-4G"%string := "70"%string ]}))
             G4); [reflexivity | discriminate].
Defined.

(** X12: the high score a session holds never goes down: if the entry read
    at the start is the number [h0], the held high score is a number at
    least [h0] in every reachable state, and once the game is over it is at
    least the final score. *)
Theorem highScore_never_decreases
    (m : GameMode) (ls : gmap string string) (w : World) (h0 : Z) :
  reachable m ls w -> readHighScore m ls = Int h0 ->
  exists h : Z,
    highScore w = Int h /\ (h0 <= h)%Z /\
    (gameOver w = true -> (score (state w) <= h)%Z).
Proof.
  intros Hr H0. induction Hr as [|w e _ (h & Hh & Hle & Hover) _].
  - exists h0. split; [exact H0|]. split; [lia | discriminate].
  - destruct e as [k|k|d|]; simpl.
    + exists h. now split.
    + exists h. now split.
    + destruct (gameOver w) eqn:Hg.
      { rewrite gameLoop_over by assumption. exists h. rewrite Hg. now split. }
      destruct (frozenFrame d w) eqn:Hf.
      { destruct (frozen_world d w Hg Hf) as (Hg' & Hh' & _).
        exists h. rewrite Hh', Hg'. split; [exact Hh|]. split; [lia|discriminate]. }
      rewrite gameLoop_running by assumption.
      destruct (updateGame_outcome d (setState (entry d w) w) Hg)
        as (_ & [(_ & Hex & Hhs & _) | ([Hno | Hex] & Hhs & _)]);
        cbn [highScore setState] in *; rewrite ?Hh in *; try simpl in Hex.
      * apply Z.ltb_lt in Hex. eexists. split; [exact Hhs|]. split; lia.
      * exists h. split; [exact Hhs|]. split; [lia | congruence].
      * apply Z.ltb_ge in Hex. exists h. split; [exact Hhs|]. split; [lia|].
        intros _. exact Hex.
    + exists h. split; [exact Hh|]. split; [lia | discriminate].
Qed.

Lemma highScore_never_decreases_witness :
  exists h : Z,
    highScore (frames (repeat halves 230)
                 (initWorld G5 {[ "highScore-5G"%string := "40"%string ]}))
    = Int h /\ (40 <= h)%Z.
Proof.
  assert (H0 : readHighScore G5 {[ "highScore-5G"%string := "40"%string ]}
               = Int 40) by (vm_compute; reflexivity).
  destruct (highScore_never_decreases G5
              {[ "highScore-5G"%string := "40"%string ]} _ 40
              (reach_frames G5 _ 230) H0) as (h & Hh & Hle & _).
  exists h. split; [exact Hh | exact Hle].
Defined.

(** X13: a restart is a fresh mount over the current storage: in every
    reachable state [handleRestart] gives the world a new session of the
    same mode would start in, with the high score read from the storage. *)
Theorem restart_is_fresh_session
    (m : GameMode) (ls : gmap string string) (w : World) :
  reachable m ls w -> handleRestart w = initWorld m (localStorage w).
Proof.
  intros Hr. unfold handleRestart, initWorld.
  rewrite <- (reachable_highScore m ls w Hr).
  rewrite <- (reachable_gameMode m ls w Hr). reflexivity.
Qed.

Lemma restart_is_fresh_session_witness :
  handleRestart (frames (repeat halves 230) (initWorld G5 ∅))
  = initWorld G5 (localStorage (frames (repeat halves 230) (initWorld G5 ∅))).
Proof.
  exact (restart_is_fresh_session G5 ∅ _ (reach_frames G5 ∅ 230)).
Defined.

(** X14: the "NEW HIGH SCORE!" line of the game-over card: when a frame
    ends the game with final score [s] against a held high score [h], the
    line is shown exactly when [s] is positive and at least [h]; so it is
    also shown when the score only equals the old high score, in which case
    nothing is stored. *)
Theorem badge_on_record_or_tie
    (m : GameMode) (ls : gmap string string) (w : World) (d : Draws) (h : Z) :
  reachable m ls w -> gameOver w = false ->
  gameOver (gameLoop d w) = true -> highScore w = Int h ->
  let w' := gameLoop d w in
  (newHighScoreBadge w' = true <->
   (0 < score (state w'))%Z /\ (h <= score (state w'))%Z) /\
  (score (state w') = h -> localStorage w' = localStorage w).
Proof.
  intros Hr Hg Hover Hh w'. subst w'.
  destruct (game_end_record m ls w d h Hr Hg Hover Hh) as [Hwin Hkeep].
  pose proof (step_scoreState w (Frame d)
                (reachable_scoreState m ls w Hr)) as Hshown.
  simpl in Hshown.
  split; [|intros E; apply Hkeep; lia].
  unfold newHighScoreBadge. rewrite Hover, Hshown. simpl.
  destruct (Z.lt_ge_cases h (score (state (gameLoop d w)))) as [Hlt|Hge].
  - destruct (Hwin Hlt) as (_ & ->). rewrite Z.eqb_refl. simpl.
    rewrite Z.ltb_lt. split; [intros ?; split; lia | tauto].
  - destruct (Hkeep Hge) as (_ & ->). rewrite andb_true_iff, Z.eqb_eq, Z.ltb_lt.
    split; [intros [-> ?]; split; lia | intros [? ?]; split; lia].
Qed.

Lemma badge_on_record_or_tie_witness :
  newHighScoreBadge
    (gameLoop halves (frames (repeat halves 225) (initWorld G5 ∅))) = true <->
  (0 < score (state (gameLoop halves
                       (frames (repeat halves 225) (initWorld G5 ∅)))))%Z /\
  (0 <= score (state (gameLoop halves
                        (frames (repeat halves 225) (initWorld G5 ∅)))))%Z.
Proof.
  assert (Hg : gameOver (frames (repeat halves 225) (initWorld G5 ∅)) = false)
    by (vm_compute; reflexivity).
  assert (Ho : gameOver (gameLoop halves
                 (frames (repeat halves 225) (initWorld G5 ∅))) = true)
    by (vm_compute; reflexivity).
  assert (Hh : highScore (frames (repeat halves 225) (initWorld G5 ∅)) = Int 0)
    by (vm_compute; reflexivity).
  exact (proj1 (badge_on_record_or_tie G5 ∅ _ halves 0
                  (reach_frames G5 ∅ 225) Hg Ho Hh)).
Defined.


(** ** Keys and the rocket *)

Lemma held_insert (k k' : string) (b : bool) (ks : gmap string bool) :
  held k' (<[k := b]> ks) = if decide (k = k') then b else held k' ks.
Proof. unfold held. rewrite lookup_insert. now destruct (decide (k = k')). Qed.

Lemma handleKeyDown_frame (d : Draws) (w : World) (k : string) :
  gameOver (handleKeyDown k w) = gameOver w /\
  frozenFrame d (handleKeyDown k w) = frozenFrame d w /\
  gameMode (handleKeyDown k w) = gameMode w /\
  rocket (state (handleKeyDown k w)) = rocket (state w).
Proof.
  destruct w as [gm ? ? ? [] ?]. unfold frozenFrame. simpl.
  split; [reflexivity|]. split; [|split; reflexivity].
  destruct gm; [|reflexivity].
  unfold lagTrigger. simpl. now destruct (_ && _).
Qed.

Lemma held_pressed (k name : string) (ks : gmap string bool) :
  toLowerCase k = name -> held name (<[toLowerCase k := true]> ks) = true.
Proof. intros ->. rewrite held_insert. now destruct (decide _). Qed.

Lemma held_other (k name : string) (ks : gmap string bool) :
  toLowerCase k <> name ->
  held name (<[toLowerCase k := true]> ks) = held name ks.
Proof. intros H. rewrite held_insert. now destruct (decide _). Qed.

(** X15: the controls do not depend on the letter case of the key events.
    After a press of W or ArrowUp, in any letter case, a running frame moves
    the rocket up by [moveSpeed], stopping at 0, unless a down key is held;
    likewise S or ArrowDown move it down, stopping at 600 - 60, A or
    ArrowLeft left, stopping at 0, and D or ArrowRight right, stopping at
    800 - 40.  A repeated press changes nothing, and a release in any letter
    case undoes the press. *)
Theorem controls_ignore_letter_case
    (m : GameMode) (ls : gmap string string) (w : World) (k : string)
    (d : Draws) :
  reachable m ls w -> gameOver w = false -> frozenFrame d w = false ->
  let r := rocket (state w) in
  let r' := rocket (state (gameLoop d (handleKeyDown k w))) in
  let ks := keys (state w) in
  (toLowerCase k = "w"%string \/ toLowerCase k = "arrowup"%string ->
   held "s" ks || held "arrowdown" ks = false ->
   y r' == Qmax 0 (y r - moveSpeed m)) /\
  (toLowerCase k = "s"%string \/ toLowerCase k = "arrowdown"%string ->
   held "w" ks || held "arrowup" ks = false ->
   y r' == Qmin (600 - 60) (y r + moveSpeed m)) /\
  (toLowerCase k = "a"%string \/ toLowerCase k = "arrowleft"%string ->
   held "d" ks || held "arrowright" ks = false ->
   x r' == Qmax 0 (x r - moveSpeed m)) /\
  (toLowerCase k = "d"%string \/ toLowerCase k = "arrowright"%string ->
   held "a" ks || held "arrowleft" ks = false ->
   x r' == Qmin (800 - 40) (x r + moveSpeed m)) /\
  (forall k2 : string,
     toLowerCase k2 = toLowerCase k ->
     handleKeyDown k2 (handleKeyDown k w) = handleKeyDown k w /\
     handleKeyUp k2 (handleKeyDown k w) = handleKeyUp k w).
Proof.
  intros Hr Hg Hf r r' ks. subst r r' ks.
  destruct (handleKeyDown_frame d w k) as (Hg1 & Hf1 & Hm1 & Hr1).
  rewrite <- Hg1 in Hg. rewrite <- Hf1 in Hf.
  destruct (running_fields d (handleKeyDown k w) Hg Hf) as (-> & _).
  rewrite Hm1, Hr1, (reachable_gameMode m ls w Hr).
  destruct (reachable_rocket m ls w Hr) as [[Hw Hh] _].
  change (keys (state (handleKeyDown k w)))
    with (<[toLowerCase k := true]> (keys (state w))).
  unfold moveRocket, canvasWidth, canvasHeight.
  split; [|split; [|split; [|split]]].
  - intros Hk Hno. apply orb_false_iff in Hno as [Hn1 Hn2].
    assert (Hup : held "w" (<[toLowerCase k := true]> (keys (state w)))
                  || held "arrowup" (<[toLowerCase k := true]> (keys (state w)))
                  = true).
    { destruct Hk as [E | E]; rewrite (held_pressed k _ _ E);
        [reflexivity | apply orb_true_r]. }
    assert (Hdn : held "s" (<[toLowerCase k := true]> (keys (state w)))
                  || held "arrowdown" (<[toLowerCase k := true]> (keys (state w)))
                  = false).
    { rewrite !held_other, Hn1, Hn2; [reflexivity|..];
        destruct Hk as [E | E]; rewrite E; discriminate. }
    rewrite Hup, Hdn.
    repeat match goal with |- context [if ?b then _ else _] => destruct b end;
      reflexivity.
  - intros Hk Hno. apply orb_false_iff in Hno as [Hn1 Hn2].
    assert (Hdn : held "s" (<[toLowerCase k := true]> (keys (state w)))
                  || held "arrowdown" (<[toLowerCase k := true]> (keys (state w)))
                  = true).
    { destruct Hk as [E | E]; rewrite (held_pressed k _ _ E);
        [reflexivity | apply orb_true_r]. }
    assert (Hup : held "w" (<[toLowerCase k := true]> (keys (state w)))
                  || held "arrowup" (<[toLowerCase k := true]> (keys (state w)))
                  = false).
    { rewrite !held_other, Hn1, Hn2; [reflexivity|..];
        destruct Hk as [E | E]; rewrite E; discriminate. }
    rewrite Hup, Hdn, Hh.
    repeat match goal with |- context [if ?b then _ else _] => destruct b end;
      reflexivity.
  - intros Hk Hno. apply orb_false_iff in Hno as [Hn1 Hn2].
    assert (Hlf : held "a" (<[toLowerCase k := true]> (keys (state w)))
                  || held "arrowleft" (<[toLowerCase k := true]> (keys (state w)))
                  = true).
    { destruct Hk as [E | E]; rewrite (held_pressed k _ _ E);
        [reflexivity | apply orb_true_r]. }
    assert (Hrt : held "d" (<[toLowerCase k := true]> (keys (state w)))
                  || held "arrowright" (<[toLowerCase k := true]> (keys (state w)))
                  = false).
    { rewrite !held_other, Hn1, Hn2; [reflexivity|..];
        destruct Hk as [E | E]; rewrite E; discriminate. }
    rewrite Hlf, Hrt.
    repeat match goal with |- context [if ?b then _ else _] => destruct b end;
      reflexivity.
  - intros Hk Hno. apply orb_false_iff in Hno as [Hn1 Hn2].
    assert (Hrt : held "d" (<[toLowerCase k := true]> (keys (state w)))
                  || held "arrowright" (<[toLowerCase k := true]> (keys (state w)))
                  = true).
    { destruct Hk as [E | E]; rewrite (held_pressed k _ _ E);
        [reflexivity | apply orb_true_r]. }
    assert (Hlf : held "a" (<[toLowerCase k := true]> (keys (state w)))
                  || held "arrowleft" (<[toLowerCase k := true]> (keys (state w)))
                  = false).
    { rewrite !held_other, Hn1, Hn2; [reflexivity|..];
        destruct Hk as [E | E]; rewrite E; discriminate. }
    rewrite Hlf, Hrt.
    repeat match goal with |- context [if ?b then _ else _] => destruct b end;
      cbn [x y width height setX setY]; rewrite ?Hw; reflexivity.
  - intros k2 E. unfold handleKeyDown, handleKeyUp. simpl. rewrite E.
    now rewrite !insert_insert_eq.
Qed.

Lemma controls_ignore_letter_case_witness :
  y (rocket (state (gameLoop halves (handleKeyDown "W" (initWorld G5 ∅)))))
  == Qmax 0 (y (rocket (state (initWorld G5 ∅))) - moveSpeed G5).
Proof.
  refine (proj1 (controls_ignore_letter_case G5 ∅ (initWorld G5 ∅) "W" halves
                   (reach_init G5 ∅) eq_refl eq_refl) _ _).
  - left. reflexivity.
  - vm_compute. reflexivity.
Defined.

Lemma clamp_low_step (v s b : Q) :
  0 < s -> 0 <= v /\ v <= b -> v - s <= Qmax 0 (v - s) /\ Qmax 0 (v - s) <= v.
Proof.
  intros Hs [H0 Hb].
  destruct (Q.max_spec 0 (v - s)) as [[? E]|[? E]]; rewrite E; split; lra.
Qed.

Lemma clamp_high_step (v s b : Q) :
  0 < s -> 0 <= v /\ v <= b -> v <= Qmin b (v + s) /\ Qmin b (v + s) <= v + s.
Proof.
  intros Hs [H0 Hb].
  destruct (Q.min_spec b (v + s)) as [[? E]|[? E]]; rewrite E; split; lra.
Qed.

Lemma clamp_both (v s b : Q) :
  0 < s -> s <= b -> 0 <= v /\ v <= b ->
  Qmin b (Qmax 0 (v - s) + s) == Qmax v s.
Proof.
  intros Hs Hsb [H0 Hb].
  destruct (Q.max_spec 0 (v - s)) as [[? E]|[? E]];
    destruct (Q.max_spec v s) as [[? E']|[? E']];
    destruct (Q.min_spec b (Qmax 0 (v - s) + s)) as [[? E'']|[? E'']];
    rewrite E'', E'; rewrite E in *; lra.
Qed.

(** X16: what the held keys do to a rocket that is on the field: it keeps
    its size, moves by at most [moveSpeed] along each axis, and stays put
    with no key held; with both keys of an axis held the moves cancel,
    except within [moveSpeed] of the top or left edge, where the rocket ends
    at distance [moveSpeed] from that edge. *)
Theorem moveRocket_step (m : GameMode) (ks : gmap string bool) (r : GameObject) :
  width r = 40 -> height r = 60 ->
  0 <= x r /\ x r <= 800 - 40 -> 0 <= y r /\ y r <= 600 - 60 ->
  let r' := moveRocket m ks r in
  width r' = width r /\ height r' = height r /\ speed r' = speed r /\
  (x r - moveSpeed m <= x r' /\ x r' <= x r + moveSpeed m) /\
  (y r - moveSpeed m <= y r' /\ y r' <= y r + moveSpeed m) /\
  ((held "w" ks || held "arrowup" ks) = true ->
   (held "s" ks || held "arrowdown" ks) = true ->
   y r' == Qmax (y r) (moveSpeed m)) /\
  ((held "a" ks || held "arrowleft" ks) = true ->
   (held "d" ks || held "arrowright" ks) = true ->
   x r' == Qmax (x r) (moveSpeed m)) /\
  ((held "w" ks || held "arrowup" ks) = false ->
   (held "s" ks || held "arrowdown" ks) = false -> y r' = y r) /\
  ((held "a" ks || held "arrowleft" ks) = false ->
   (held "d" ks || held "arrowright" ks) = false -> x r' = x r).
Proof.
  intros Hw Hh Hx Hy r'. subst r'.
  pose proof (moveSpeed_pos m) as Hs.
  assert (Hs6 : moveSpeed m <= 6) by (destruct m; simpl; lra).
  unfold moveRocket.
  destruct (held "w" ks || held "arrowup" ks);
    destruct (held "s" ks || held "arrowdown" ks);
    destruct (held "a" ks || held "arrowleft" ks);
    destruct (held "d" ks || held "arrowright" ks);
    cbn [x y width height speed setX setY]; rewrite ?Hw, ?Hh;
    unfold canvasWidth, canvasHeight;
    pose proof (clamp_low_step (x r) (moveSpeed m) (800 - 40) Hs Hx);
    pose proof (clamp_low_step (y r) (moveSpeed m) (600 - 60) Hs Hy);
    pose proof (clamp_high_step (x r) (moveSpeed m) (800 - 40) Hs Hx);
    pose proof (clamp_high_step (y r) (moveSpeed m) (600 - 60) Hs Hy);
    pose proof (clamp_both (x r) (moveSpeed m) (800 - 40) Hs ltac:(lra) Hx) as Ex;
    pose proof (clamp_both (y r) (moveSpeed m) (600 - 60) Hs ltac:(lra) Hy) as Ey;
    pose proof (Q.max_spec (x r) (moveSpeed m));
    pose proof (Q.max_spec (y r) (moveSpeed m));
    repeat split; try reflexivity; try discriminate; try (intros _ _; assumption);
    try lra; rewrite ?Ex, ?Ey; lra.
Qed.

Lemma moveRocket_step_witness :
  y (moveRocket G5 {[ "w"%string := true; "s"%string := true ]} initialRocket)
  == Qmax (y initialRocket) (moveSpeed G5).
Proof.
  refine (proj1 (proj2 (proj2 (proj2 (proj2 (proj2
            (moveRocket_step G5 {[ "w"%string := true; "s"%string := true ]}
               initialRocket eq_refl eq_refl _ _))))))
            _ _).
  - simpl. split; lra.
  - simpl. split; lra.
  - vm_compute. reflexivity.
  - vm_compute. reflexivity.
Defined.

(** X17: [checkCollision] does not depend on the order of its arguments;
    and for rectangles whose right and bottom edge are computed exactly,
    before and after the move, moving both by the same offset does not
    change the answer, and such a rectangle of positive size collides with
    itself.  Without exact edges a move can change the answer: the pair
    [grazedRocket], [grazingObstacle] does not collide, and moved up by 482
    it does. *)
Theorem checkCollision_symmetric_and_translation_invariant :
  (forall a b : GameObject, checkCollision a b = checkCollision b a) /\
  (forall (a b : GameObject) (dx dy : Q),
     exactEdges a -> exactEdges b ->
     exactEdges (setY (y a + dy) (setX (x a + dx) a)) ->
     exactEdges (setY (y b + dy) (setX (x b + dx) b)) ->
     checkCollision (setY (y a + dy) (setX (x a + dx) a))
                    (setY (y b + dy) (setX (x b + dx) b))
     = checkCollision a b) /\
  (forall a : GameObject,
     exactEdges a -> 0 < width a -> 0 < height a -> checkCollision a a = true) /\
  (checkCollision grazedRocket grazingObstacle = false /\
   checkCollision (setY (y grazedRocket - 482) grazedRocket)
                  (setY (y grazingObstacle - 482) grazingObstacle) = true).
Proof.
  split; [|split; [|split]]; [| | |split; vm_compute; reflexivity].
  - intros a b. apply eq_true_iff_eq. rewrite !checkCollision_test. tauto.
  - intros a b dx dy Ha Hb Ha' Hb'. apply eq_true_iff_eq.
    rewrite (checkCollision_overlap _ _ Ha' Hb'), (checkCollision_overlap _ _ Ha Hb).
    unfold overlap. simpl. split; intros (? & ? & ? & ?); repeat split; lra.
  - intros a Ha Hw Hh. apply (checkCollision_overlap a a Ha Ha).
    unfold overlap. repeat split; lra.
Qed.

(** ** The class-name helper *)

Lemma append_assoc (a b c : string) :
  ((a ++ b) ++ c = a ++ (b ++ c))%string.
Proof.
  induction a as [|ch a IH]; [reflexivity|].
  change (String ch ((a ++ b) ++ c) = String ch (a ++ (b ++ c)))%string.
  now rewrite IH.
Qed.

Lemma concat_app (sep : string) (l1 l2 : list string) :
  String.concat sep (l1 ++ l2) =
  match l1, l2 with
  | [], _ => String.concat sep l2
  | _, [] => String.concat sep l1
  | _, _ => (String.concat sep l1 ++ sep ++ String.concat sep l2)%string
  end.
Proof.
  induction l1 as [|a l1 IH]; [reflexivity|].
  destruct l2 as [|b l2]; [now rewrite app_nil_r|].
  destruct l1 as [|a' l1].
  - reflexivity.
  - change (String.concat sep ((a :: a' :: l1) ++ b :: l2))
      with (a ++ sep ++ String.concat sep ((a' :: l1) ++ b :: l2))%string.
    rewrite IH.
    change (String.concat sep (a :: a' :: l1))
      with (a ++ sep ++ String.concat sep (a' :: l1))%string.
    now rewrite !append_assoc.
Qed.

Lemma joinText_truthy (v : JsValue) :
  truthy v = true -> joinText v <> EmptyString.
Proof. destruct v as [[|c s]|[|]| |]; simpl; congruence. Qed.

Lemma concat_nonempty (sep a : string) (l : list string) :
  a <> EmptyString -> String.concat sep (a :: l) <> EmptyString.
Proof.
  intros Ha. destruct a as [|c a]; [congruence|].
  destruct l; simpl; discriminate.
Qed.

Lemma cn_empty_iff (inputs : list JsValue) :
  cn inputs = EmptyString <-> List.filter truthy inputs = [].
Proof.
  unfold cn. split.
  - destruct (List.filter truthy inputs) as [|v l] eqn:E; [reflexivity|].
    intros H. exfalso. simpl map in H.
    apply (concat_nonempty " " (joinText v) (map joinText l)); [|exact H].
    apply joinText_truthy.
    assert (Hin : In v (List.filter truthy inputs)) by (rewrite E; now left).
    now apply filter_In in Hin.
  - now intros ->.
Qed.

(** X18: [cn] drops every falsy input (false, undefined, null, the empty
    string) and joins the rest with single spaces: the result is empty
    exactly when no input is truthy, a falsy input may be inserted anywhere
    without effect, and the class list of two groups of inputs is the two
    class lists joined by a space, or just one of them when the other is
    empty. *)
Theorem cn_joins_truthy (xs ys : list JsValue) :
  (cn xs = EmptyString <-> Forall (fun v => truthy v = false) xs) /\
  (forall v : JsValue, truthy v = false -> cn (xs ++ v :: ys) = cn (xs ++ ys)) /\
  cn (xs ++ ys) =
    match cn xs, cn ys with
    | EmptyString, c => c
    | c, EmptyString => c
    | c1, c2 => (c1 ++ " " ++ c2)%string
    end.
Proof.
  split; [|split].
  - rewrite cn_empty_iff. induction xs as [|v xs IH]; simpl.
    + split; [constructor | reflexivity].
    + destruct (truthy v) eqn:Hv.
      * split; [discriminate|]. intros H. inversion H; congruence.
      * rewrite IH. split; [now constructor | intros H; now inversion H].
  - intros v Hv. unfold cn. rewrite !List.filter_app. simpl. now rewrite Hv.
  - pose proof (cn_empty_iff xs) as Hx. pose proof (cn_empty_iff ys) as Hy.
    unfold cn in *. rewrite List.filter_app, map_app, concat_app.
    destruct (List.filter truthy xs) as [|a l1].
    { simpl. now destruct (String.concat " " (map joinText (List.filter truthy ys))). }
    destruct (List.filter truthy ys) as [|b l2].
    { simpl map.
      destruct (String.concat " " (joinText a :: map joinText l1)) eqn:E;
        [|reflexivity].
      apply Hx in E. discriminate. }
    simpl map.
    destruct (String.concat " " (joinText a :: map joinText l1)) eqn:E1;
      [apply Hx in E1; discriminate|].
    destruct (String.concat " " (joinText b :: map joinText l2)) eqn:E2;
      [apply Hy in E2; discriminate|].
    reflexivity.
Qed.

Lemma cn_joins_truthy_witness :
  cn ([JsString "px-4"; JsBool false] ++ JsUndefined :: [JsString "font-bold"])
  = cn ([JsString "px-4"; JsBool false] ++ [JsString "font-bold"]).
Proof.
  exact (proj1 (proj2 (cn_joins_truthy [JsString "px-4"; JsBool false]
                         [JsString "font-bold"])) JsUndefined eq_refl).
Defined.


(** ** What a frame emits *)

Lemma updateGameFx_spec (d : Draws) (v : World) :
  updateGameFx d v =
  if existsb (fun o : Obstacle => checkCollision (rocket (state (updateGame d v))) o)
       (obstacles (state (updateGame d v)))
  then (if exceeds (score (state (updateGame d v))) (highScore v)
        then [ToastRecord] else [])
  else [DrawFrame (state (updateGame d v)); RequestFrame].
Proof.
  rewrite updateGame_state. unfold updateGameFx. rewrite moveObstacles_spec.
  reflexivity.
Qed.

Lemma updateGameFx_outcome (d : Draws) (v : World) :
  gameOver v = false ->
  updateGameFx d v =
  if gameOver (updateGame d v)
  then (if exceeds (score (state (updateGame d v))) (highScore v)
        then [ToastRecord] else [])
  else [DrawFrame (state (updateGame d v)); RequestFrame].
Proof.
  intros Hg. destruct (updateGame_outcome d v Hg) as [-> _].
  apply updateGameFx_spec.
Qed.

Lemma gameLoopFx_over (d : Draws) (w : World) :
  gameOver w = true -> gameLoopFx d w = [].
Proof. intros Hg. unfold gameLoopFx. now rewrite Hg. Qed.

Lemma gameLoopFx_frozen (d : Draws) (w : World) :
  gameOver w = false -> frozenFrame d w = true ->
  gameLoopFx d w =
  (lagToast d (ticked w) ++ [DrawFrame (state (gameLoop d w)); RequestFrame]).
Proof.
  intros Hg Hf. rewrite gameLoop_frozen by assumption.
  unfold gameLoopFx, frozenFrame in *. rewrite Hg.
  destruct (gameMode w); [|discriminate].
  fold (ticked w) in *. now rewrite Hf.
Qed.

Lemma gameLoopFx_running (d : Draws) (w : World) :
  gameOver w = false -> frozenFrame d w = false ->
  gameLoopFx d w = updateGameFx d (setState (entry d w) w).
Proof.
  intros Hg Hf. unfold gameLoopFx, frozenFrame, entry in *. rewrite Hg.
  destruct (gameMode w) eqn:Hm; [|reflexivity].
  fold (ticked w) in *. rewrite Hf.
  unfold lagToast, lagTrigger, freezing in *.
  destruct ((Z.rem (frameCount (ticked w)) 120 =? 0)%Z
            && Qltb 0.5 (rFreeze d)); [simpl in Hf; discriminate|reflexivity].
Qed.

(** The calls of a frame that is not frozen, from its outcome. *)
Lemma running_fx (d : Draws) (w : World) :
  gameOver w = false -> frozenFrame d w = false ->
  gameLoopFx d w =
  if gameOver (gameLoop d w)
  then (if exceeds (score (state (gameLoop d w))) (highScore w)
        then [ToastRecord] else [])
  else [DrawFrame (state (gameLoop d w)); RequestFrame].
Proof.
  intros Hg Hf. rewrite gameLoopFx_running, gameLoop_running by assumption.
  now rewrite updateGameFx_outcome.
Qed.

(** The storage changes on a frame exactly when the record branch runs. *)
Lemma storage_changed_iff
    (m : GameMode) (ls : gmap string string) (w : World) (d : Draws) :
  reachable m ls w -> gameOver w = false -> frozenFrame d w = false ->
  localStorage (gameLoop d w) <> localStorage w <->
  gameOver (gameLoop d w) = true /\
  exceeds (score (state (gameLoop d w))) (highScore w) = true.
Proof.
  intros Hr Hg Hf. pose proof (reachable_gameMode m ls w Hr) as Hm.
  rewrite gameLoop_running by assumption.
  destruct (updateGame_outcome d (setState (entry d w) w) Hg)
    as (_ & [(Hover & Hex & Hhs & Hst) | (Hcase & Hhs & Hst)]);
    cbn [highScore gameMode localStorage setState] in *.
  - split; [now intros _|]. intros _. rewrite Hst, Hm. intros E.
    pose proof (reachable_highScore m ls w Hr) as Hsync.
    rewrite <- E, readHighScore_written in Hsync.
    rewrite Hsync in Hex. simpl in Hex. apply Z.ltb_lt in Hex. lia.
  - rewrite Hst. split; [congruence|]. intros [Hover Hex].
    destruct Hcase; congruence.
Qed.

(** X19: what a frame asks of its collaborators.  It draws, and requests
    the next frame, exactly when the game is still running after it, and
    what it draws is the state the frame ends in; it sends the record toast
    exactly when it changes the storage; it sends the lag toast exactly
    when a 4G frame on a multiple of 120 wins the coin, and that frame is
    frozen. *)
Theorem frame_effects
    (m : GameMode) (ls : gmap string string) (w : World) (d : Draws) :
  reachable m ls w ->
  let w' := gameLoop d w in
  let fx := gameLoopFx d w in
  (In RequestFrame fx <-> gameOver w' = false) /\
  (forall st : GameState,
     In (DrawFrame st) fx <-> gameOver w' = false /\ st = state w') /\
  (In ToastRecord fx <-> localStorage w' <> localStorage w) /\
  (In ToastLag fx <->
   gameOver w = false /\ m = G4 /\
   Z.rem (frameCount (state w) + 1) 120 = 0%Z /\ 0.5 < rFreeze d) /\
  (In ToastLag fx -> frozenFrame d w = true).
Proof.
  intros Hr w' fx. subst w' fx.
  pose proof (reachable_gameMode m ls w Hr) as Hm.
  destruct (gameOver w) eqn:Hg.
  { rewrite gameLoopFx_over, gameLoop_over by assumption. rewrite Hg. simpl.
    intuition (try discriminate; try congruence). }
  assert (Hlag : In ToastLag (lagToast d (ticked w)) <->
                 Z.rem (frameCount (state w) + 1) 120 = 0%Z /\ 0.5 < rFreeze d).
  { unfold lagToast. simpl. rewrite <- Qltb_lt.
    destruct (Z.eqb_spec (Z.rem (frameCount (state w) + 1) 120) 0) as [Hz|Hnz];
      destruct (Qltb 0.5 (rFreeze d)); simpl; intuition (discriminate || lia). }
  assert (Honly : forall e, In e (lagToast d (ticked w)) -> e = ToastLag).
  { unfold lagToast. destruct (_ && _); simpl; intuition. }
  destruct (frozenFrame d w) eqn:Hf.
  - rewrite gameLoopFx_frozen by assumption.
    destruct (frozen_world d w Hg Hf) as (Hg' & _ & Hs').
    assert (Hm4 : m = G4).
    { unfold frozenFrame in Hf. rewrite Hm in Hf. now destruct m. }
    rewrite Hg', Hs'. split; [|split; [|split; [|split]]].
    + rewrite in_app_iff. simpl. tauto.
    + intros st. rewrite in_app_iff. simpl. split.
      * intros [H | [H | [H | []]]];
          [apply Honly in H; discriminate | | discriminate].
        injection H as <-. now split.
      * intros [_ ->]. right. now left.
    + rewrite in_app_iff. simpl. split; [|congruence].
      intros [H | [H | [H | []]]]; [apply Honly in H|..]; discriminate.
    + rewrite in_app_iff, Hlag. simpl. split.
      * intros [H | [H | [H | []]]]; [tauto | discriminate | discriminate].
      * intros (_ & _ & H). now left.
    + reflexivity.
  - assert (Hnolag : ~ (m = G4 /\ Z.rem (frameCount (state w) + 1) 120 = 0%Z
                        /\ 0.5 < rFreeze d)).
    { intros (Hm4 & Hz & Hcoin).
      unfold frozenFrame in Hf. rewrite Hm, Hm4 in Hf.
      unfold lagTrigger, freezing in Hf. simpl in Hf.
      apply Qltb_lt in Hcoin. rewrite Hz, Hcoin in Hf. discriminate. }
    pose proof (storage_changed_iff m ls w d Hr Hg Hf) as Hchg.
    rewrite running_fx by assumption.
    destruct (gameOver (gameLoop d w)) eqn:Hover;
      [destruct (exceeds (score (state (gameLoop d w))) (highScore w)) eqn:Hex|];
      simpl; intuition (try discriminate; try congruence).
Qed.

Lemma frame_effects_witness :
  In RequestFrame (gameLoopFx halves (frames (repeat halves 119) (initWorld G4 ∅))).
Proof.
  assert (Hg : gameOver (gameLoop halves
                 (frames (repeat halves 119) (initWorld G4 ∅))) = false)
    by (vm_compute; reflexivity).
  exact (proj2 (proj1 (frame_effects G4 ∅ _ halves (reach_frames G4 ∅ 119))) Hg).
Defined.

(** X20: the "LOADING..." veil is drawn on exactly the frozen frames: the
    state a frame hands to [drawFrame] shows the veil if and only if the
    frame was frozen. *)
Theorem loading_veil_on_frozen_frames
    (m : GameMode) (ls : gmap string string) (w : World) (d : Draws)
    (st : GameState) :
  reachable m ls w -> In (DrawFrame st) (gameLoopFx d w) ->
  loadingShown m st = frozenFrame d w.
Proof.
  intros Hr Hin. pose proof (reachable_gameMode m ls w Hr) as Hm.
  destruct (gameOver w) eqn:Hg.
  { rewrite gameLoopFx_over in Hin by assumption. destruct Hin. }
  destruct (frozenFrame d w) eqn:Hf.
  - rewrite gameLoopFx_frozen in Hin by assumption.
    apply in_app_iff in Hin as [Hin | [Hin | [Hin | []]]]; try discriminate.
    { unfold lagToast in Hin. destruct (_ && _); simpl in Hin;
        intuition discriminate. }
    injection Hin as <-. rewrite gameLoop_frozen by assumption.
    unfold frozenFrame in Hf. rewrite Hm in Hf. destruct m; [|discriminate].
    fold (ticked w) in Hf. unfold freezing in Hf.
    apply andb_true_iff in Hf as [Hs _]. exact Hs.
  - rewrite running_fx in Hin by assumption.
    destruct (gameOver (gameLoop d w));
      [destruct (exceeds _ _); simpl in Hin; intuition discriminate|].
    destruct Hin as [Hin | [Hin | []]]; [|discriminate]. injection Hin as <-.
    rewrite gameLoop_running by assumption.
    destruct (updateGame_bookkeeping d (setState (entry d w) w)) as (_ & Hs & _).
    destruct m; [|reflexivity]. simpl. rewrite Hs. simpl.
    unfold entry. now rewrite Hm.
Qed.

Lemma loading_veil_on_frozen_frames_witness :
  loadingShown G4
    (state (gameLoop halves (frames (repeat halves 119) (initWorld G4 ∅))))
  = frozenFrame halves (frames (repeat halves 119) (initWorld G4 ∅)).
Proof.
  assert (Hin : In (DrawFrame (state (gameLoop halves
                      (frames (repeat halves 119) (initWorld G4 ∅)))))
                  (gameLoopFx halves (frames (repeat halves 119) (initWorld G4 ∅))))
    by (vm_compute; right; left; reflexivity).
  exact (loading_veil_on_frozen_frames G4 ∅ _ halves _ (reach_frames G4 ∅ 119) Hin).
Defined.

(** ** The star field *)

Lemma star_in_canvas (n i : Z) :
  (0 <= n)%Z -> (0 <= i < 50)%Z ->
  (0 <= fst (star n i) /\ fst (star n i) + 2 <= 800)%Z /\
  (0 <= snd (star n i) /\ snd (star n i) + 2 <= 600)%Z.
Proof.
  intros Hn Hi. unfold star. simpl. split.
  - Z.quot_rem_to_equations. lia.
  - assert (Hcases : In i (seqZ 0 50)).
    { apply list_elem_of_In, elem_of_seqZ. lia. }
    vm_compute seqZ in Hcases.
    repeat (destruct Hcases as [<- | Hcases]; [vm_compute; split; discriminate|]).
    destruct Hcases.
Qed.

(** X21: the stars [drawFrame] paints: there are 50 of them, each 2 x 2
    square lies entirely inside the 800 x 600 canvas whatever the frame
    counter (which is never negative), each frame moves every star 2 pixels
    to the right, wrapping around, and the field repeats every 400 frames. *)
Theorem stars_stay_on_canvas (st : GameState) :
  (0 <= frameCount st)%Z ->
  length (stars st) = 50%nat /\
  Forall (fun p : Z * Z =>
            (0 <= fst p /\ fst p + 2 <= 800)%Z /\
            (0 <= snd p /\ snd p + 2 <= 600)%Z) (stars st) /\
  stars (setFrameCount (frameCount st + 1) st) =
    map (fun p : Z * Z => (Z.rem (fst p + 2) 800, snd p)) (stars st) /\
  stars (setFrameCount (frameCount st + 400) st) = stars st.
Proof.
  intros Hn. unfold stars. simpl frameCount.
  split; [now rewrite length_map, length_seqZ|]. split; [|split].
  - apply List.Forall_forall. intros p Hp.
    apply in_map_iff in Hp as (i & <- & Hi).
    apply list_elem_of_In, elem_of_seqZ in Hi. apply star_in_canvas; lia.
  - rewrite map_map. apply map_ext_in. intros i Hi.
    apply list_elem_of_In, elem_of_seqZ in Hi. unfold star. simpl.
    f_equal. Z.quot_rem_to_equations. lia.
  - apply map_ext_in. intros i Hi.
    apply list_elem_of_In, elem_of_seqZ in Hi. unfold star.
    f_equal. Z.quot_rem_to_equations. lia.
Qed.

Lemma stars_stay_on_canvas_witness :
  length (stars initialState) = 50%nat.
Proof.
  apply (proj1 (stars_stay_on_canvas initialState ltac:(simpl; lia))).
Defined.


(** ** The first obstacle of a session *)

(** A frame of a fresh session with no key held, before the spawn interval
    has passed, only counts the frame, in either mode. *)
Lemma idle_frame (m : GameMode) (ls : gmap string string) (n : Z) (d : Draws) :
  (0 <= n)%Z -> (n + 1 <= spawnRate m)%Z ->
  gameLoop d (setState (setFrameCount n initialState) (initWorld m ls))
  = setState (setFrameCount (n + 1) initialState) (initWorld m ls).
Proof.
  intros H0 Hn.
  assert (Hupd : updateGame d
            (setState (setFrameCount (n + 1) initialState) (initWorld m ls))
          = setState (setFrameCount (n + 1) initialState) (initWorld m ls)).
  { unfold updateGame. simpl. rewrite moveRocket_idle. unfold spawnObstacle.
    simpl. rewrite Z.sub_0_r.
    destruct (Z.ltb_spec (spawnRate m) (n + 1)) as [?|_]; [lia|]. reflexivity. }
  unfold gameLoop. simpl. destruct m; [|exact Hupd].
  unfold lagTrigger. simpl.
  destruct (Z.eqb_spec (Z.rem (n + 1) 120) 0) as [Hz|_].
  { exfalso. simpl in Hn. Z.quot_rem_to_equations. lia. }
  simpl. exact Hupd.
Qed.

Lemma idle_frames (m : GameMode) (ls : gmap string string) (ds : list Draws) :
  (Z.of_nat (length ds) <= spawnRate m)%Z ->
  frames ds (initWorld m ls)
  = setState (setFrameCount (Z.of_nat (length ds)) initialState) (initWorld m ls).
Proof.
  induction ds as [|d ds IH] using rev_ind; intros Hlen.
  - reflexivity.
  - rewrite length_app in *. simpl in *.
    rewrite frames_snoc, IH by lia.
    rewrite idle_frame by lia. do 2 f_equal. lia.
Qed.

(** X22: in either mode, a session in which no key is pressed gets its
    first obstacle on frame [spawnRate + 1], that is frame 51 in 4G and
    frame 61 in 5G: up to frame [spawnRate] the collection is empty, and
    after frame [spawnRate + 1] it holds exactly the obstacle spawned on
    that frame, already moved once. *)
Theorem first_obstacle_frame
    (m : GameMode) (ls : gmap string string) (ds : list Draws) (d : Draws) :
  Z.of_nat (length ds) = spawnRate m ->
  (forall n : nat, obstacles (state (frames (take n ds) (initWorld m ls))) = []) /\
  obstacles (state (frames (ds ++ [d]) (initWorld m ls)))
  = [drift (newObstacle m d)] /\
  x (drift (newObstacle m d)) == 800 - obstacleSpeed m.
Proof.
  intros Hlen. split; [|split].
  - intros n. rewrite idle_frames; [reflexivity|].
    rewrite length_take. lia.
  - rewrite frames_snoc, idle_frames by lia. rewrite Hlen.
    set (w := setState _ _).
    assert (Hg : gameOver w = false) by reflexivity.
    assert (Hf : frozenFrame d w = false).
    { unfold frozenFrame, w. simpl. destruct m; [|reflexivity].
      unfold lagTrigger. simpl.
      destruct (Z.rem 51 120 =? 0)%Z eqn:E; [discriminate E|].
      reflexivity. }
    destruct (running_fields d w Hg Hf) as (_ & -> & _).
    unfold entering, remaining, w. rewrite spawnObstacle_obstacles. simpl.
    destruct (Z.ltb_spec (spawnRate m) (spawnRate m + 1 - 0)) as [_|?]; [|lia].
    simpl. now rewrite newObstacle_stays.
  - unfold newObstacle, canvasWidth. simpl. lra.
Qed.

Lemma first_obstacle_frame_witness :
  obstacles (state (frames (repeat halves 50 ++ [halves]) (initWorld G4 ∅)))
  = [drift (newObstacle G4 halves)].
Proof.
  exact (proj1 (proj2 (first_obstacle_frame G4 ∅ (repeat halves 50) halves
                         eq_refl))).
Defined.

(** ** Examples for the properties above *)

Lemma game_over_is_final_witness :
  score (state (run [KeyDown "w"; Frame halves; KeyUp "w"; Frame halves]
                  (frames (repeat halves 226) (initWorld G5 ∅))))
  = score (state (frames (repeat halves 226) (initWorld G5 ∅))).
Proof.
  assert (Hg : gameOver (frames (repeat halves 226) (initWorld G5 ∅)) = true)
    by (vm_compute; reflexivity).
  assert (Hes : Forall (fun e => e <> Restart)
                  [KeyDown "w"; Frame halves; KeyUp "w"; Frame halves])
    by (repeat constructor; discriminate).
  exact (proj1 (proj2 (proj2 (proj2 (proj2
           (game_over_is_final _ _ Hg Hes)))))).
Defined.

Lemma checkCollision_symmetric_and_translation_invariant_witness :
  checkCollision initialRocket initialRocket = true.
Proof.
  apply (proj1 (proj2 (proj2 checkCollision_symmetric_and_translation_invariant)));
    [split; vm_compute; reflexivity | reflexivity | reflexivity].
Defined.
